(** * huntsAPI: registration flow, HTTP routes and hunting orchestration

    A shallow embedding of [src/app-registration.js] and of the Express
    routes of the server module, with the properties the specification
    states about them.

    Asynchronous JavaScript functions are embedded as programs of a small
    free monad: a program either returns, throws, or performs one call on an
    external collaborator (the directory client, the SIEM client, the file
    system) and continues with the reply.  [await] rethrows a rejected reply,
    [try_catch] is the [try { } catch (error) { }] block.  Console logging is
    not modelled: it has no influence on control flow or on remote state. *)

From stdpp Require Import base option list strings pretty gmap.
From Stdlib Require Import ZArith Ascii.

Local Open Scope Z_scope.

(* ===================================================================== *)
(** * JavaScript values used by the code *)
(* ===================================================================== *)

(** A property that may be missing ([undefined]) or [null]. *)
Inductive JsOpt (A : Type) : Type :=
| Undefined
| Null
| Defined (a : A).
Arguments Undefined {A}.
Arguments Null {A}.
Arguments Defined {A} a.

(** [s || d] on strings: the empty string is falsy. *)
Definition str_or (s : option string) (d : string) : string :=
  match s with
  | Some "" => d
  | Some v => v
  | None => d
  end.

(** Truthiness of an optional string property. *)
Definition truthy_str (s : option string) : bool :=
  match s with
  | Some "" => false
  | Some _ => true
  | None => false
  end.

(** [a || []] on an array-valued property: every array is truthy. *)
Definition arr_or_empty {A} (a : JsOpt (list A)) : list A :=
  match a with
  | Defined l => l
  | Undefined | Null => []
  end.

(** A thrown value.  [response_data_error_message] is
    [error.response?.data?.error?.message], present on errors raised by the
    HTTP clients. *)
Record JsError := {
  err_name : string;
  err_message : option string;
  response_data_error_message : option string
}.

(* ===================================================================== *)
(** * Programs over external calls *)
(* ===================================================================== *)

Section Programs.
Context {E : Type -> Type}.

Inductive Prog (A : Type) : Type :=
| Ret (a : A)
| Throw (e : JsError)
| Call {X : Type} (ev : E X) (k : JsError + X -> Prog A).
Global Arguments Ret {A} a.
Global Arguments Throw {A} e.
Global Arguments Call {A X} ev k.

Fixpoint bind {A B} (p : Prog A) (f : A -> Prog B) : Prog B :=
  match p with
  | Ret a => f a
  | Throw e => Throw e
  | Call ev k => Call ev (fun r => bind (k r) f)
  end.

(** [try { p } catch (error) { h error }] *)
Fixpoint try_catch {A} (p : Prog A) (h : JsError -> Prog A) : Prog A :=
  match p with
  | Ret a => Ret a
  | Throw e => h e
  | Call ev k => Call ev (fun r => try_catch (k r) h)
  end.

(** [await call]: a rejected promise is rethrown at the await. *)
Definition await {X} (ev : E X) : Prog X :=
  Call ev (fun r => match r with inl e => Throw e | inr x => Ret x end).

(** One performed call, as recorded in the trace of a run. *)
Inductive Event : Type :=
| Ev {X : Type} (ev : E X).

(** The collaborators: each call is answered (or rejected) in a world. *)
Definition Handler (W : Type) : Type :=
  forall X, E X -> W -> (JsError + X) * W.

Record Outcome (W A : Type) := MkOutcome {
  result : JsError + A;
  world : W;
  trace : list Event
}.
Global Arguments MkOutcome {W A} result world trace.
Global Arguments result {W A} o.
Global Arguments world {W A} o.
Global Arguments trace {W A} o.

Definition after {W A} (ev : Event) (o : Outcome W A) : Outcome W A :=
  MkOutcome (result o) (world o) (ev :: trace o).

Definition prepend {W A} (t : list Event) (o : Outcome W A) : Outcome W A :=
  MkOutcome (result o) (world o) (t ++ trace o).

Fixpoint run {W A} (h : Handler W) (p : Prog A) (w : W) : Outcome W A :=
  match p with
  | Ret a => MkOutcome (inr a) w []
  | Throw e => MkOutcome (inl e) w []
  | Call ev k =>
      let '(r, w') := h _ ev w in
      after (Ev ev) (run h (k r) w')
  end.

(** Sequencing two runs: the second starts in the world the first left. *)
Definition seq_outcome {W A B} (o : Outcome W A)
    (next : A -> W -> Outcome W B) : Outcome W B :=
  match result o with
  | inl e => MkOutcome (inl e) (world o) (trace o)
  | inr a =>
      let o' := next a (world o) in
      MkOutcome (result o') (world o') (trace o ++ trace o')
  end.

Definition catch_outcome {W A} (o : Outcome W A)
    (handle : JsError -> W -> Outcome W A) : Outcome W A :=
  match result o with
  | inr a => MkOutcome (inr a) (world o) (trace o)
  | inl e =>
      let o' := handle e (world o) in
      MkOutcome (result o') (world o') (trace o ++ trace o')
  end.
End Programs.
Arguments Prog E A : clear implicits.
Arguments Event E : clear implicits.
Arguments Handler E W : clear implicits.
Arguments Outcome E W A : clear implicits.

Declare Scope prog_scope.
Delimit Scope prog_scope with prog.
Notation "x <- p ;; q" := (bind p (fun x => q))
  (at level 100, p at next level, right associativity) : prog_scope.
Notation "p ;;; q" := (bind p (fun _ => q))
  (at level 100, right associativity) : prog_scope.

(* ===================================================================== *)
(** * app-registration.js *)
(* ===================================================================== *)

(** ** Directory objects *)

Record ResourceAccess := {
  ra_id : string;
  ra_type : string
}.

Record RequiredResourceAccess := {
  resourceAppId : string;
  resourceAccess : list ResourceAccess
}.

Record ImplicitGrantSettings := {
  enableIdTokenIssuance : bool;
  enableAccessTokenIssuance : bool
}.

Record Web := {
  redirectUris : list string;
  implicitGrantSettings : ImplicitGrantSettings
}.

(** The body posted to [/applications]. *)
Record AppRegistration := {
  reg_displayName : string;
  signInAudience : string;
  web : Web;
  reg_requiredResourceAccess : list RequiredResourceAccess
}.

(** An application object as the directory returns it; the directory may
    leave [requiredResourceAccess] out or send [null]. *)
Record Application := {
  app_id : string;
  app_appId : string;
  app_displayName : string;
  app_requiredResourceAccess : JsOpt (list RequiredResourceAccess)
}.

(** The body of the PATCH: [{ requiredResourceAccess }]. *)
Record ApplicationPatch := {
  patch_requiredResourceAccess : list RequiredResourceAccess
}.

(** ** The directory client: [client.api(path).get() / .post() / .patch()].
    [ApiDelete] is the client's [.delete()], which the module never uses. *)
Inductive GraphE : Type -> Type :=
| ApiGet (path : string) : GraphE Application
| ApiPost (path : string) (body : AppRegistration) : GraphE Application
| ApiPatch (path : string) (body : ApplicationPatch) : GraphE unit
| ApiDelete (path : string) : GraphE unit.

Definition is_delete (ev : Event GraphE) : bool :=
  match ev with
  | Ev (ApiDelete _) => true
  | Ev _ => false
  end.

Local Open Scope prog_scope.

(** Microsoft Graph, [User.Read]. *)
Definition graphUserRead : RequiredResourceAccess :=
  {| resourceAppId := "00000003-0000-0000-c000-000000000000";
     resourceAccess :=
       [ {| ra_id := "e1fe6dd8-ba31-4d61-89e7-88639da4683d";
            ra_type := "Scope" |} ] |}.

(** The default parameter [redirectUris = []] applies when the argument is
    left out, which is [None] here. *)
Definition appRegistration (appName : string)
    (redirectUris : option (list string)) : AppRegistration :=
  {| reg_displayName := appName;
     signInAudience := "AzureADMyOrg";
     web :=
       {| redirectUris := default [] redirectUris;
          implicitGrantSettings :=
            {| enableIdTokenIssuance := true;
               enableAccessTokenIssuance := true |} |};
     reg_requiredResourceAccess := [ graphUserRead ] |}.

(** [getGraphClient()] hands out the client whose calls the handler of a
    run answers; the [catch] blocks log and rethrow. *)
Definition registerApplication (appName : string)
    (redirectUris : option (list string)) : Prog GraphE Application :=
  try_catch
    (result <- await (ApiPost "/applications"
                        (appRegistration appName redirectUris)) ;;
     Ret result)
    (fun error => Throw error).

(** Read the application, append [permissions] to what it has, write the
    list back. *)
Definition addApiPermissions (appObjectId : string)
    (permissions : list RequiredResourceAccess) : Prog GraphE bool :=
  try_catch
    (app <- await (ApiGet ("/applications/" +:+ appObjectId)) ;;
     let requiredResourceAccess :=
       arr_or_empty (app_requiredResourceAccess app) ++ permissions in
     await (ApiPatch ("/applications/" +:+ appObjectId)
              {| patch_requiredResourceAccess := requiredResourceAccess |}) ;;;
     Ret true)
    (fun error => Throw error).

(** Azure Service Management API, [user_impersonation]. *)
Definition managementPermissions : RequiredResourceAccess :=
  {| resourceAppId := "797f4846-ba00-4fd7-ba43-dac1f8f63013";
     resourceAccess :=
       [ {| ra_id := "41094075-9dad-400e-a0bd-54e686782033";
            ra_type := "Scope" |} ] |}.

Definition addSentinelPermissions (appObjectId : string) : Prog GraphE bool :=
  addApiPermissions appObjectId [ managementPermissions ].

(* ===================================================================== *)
(** * The server module: constants, helpers and routes *)
(* ===================================================================== *)

Definition UPLOADS_DIR : string := "uploads".
Definition KQL_EXTENSION : string := ".kql".
Definition DEFAULT_APP_NAME : string := "Sentinel TH Integration App".
Definition DEFAULT_PORT : Z := 3001.

(** ** Responses: [res.status(code).json(body)] *)

Inductive Body (B : Type) : Type :=
| ErrorBody (error : string)      (* [{ error: ... }] *)
| Json (payload : B).
Arguments ErrorBody {B} error.
Arguments Json {B} payload.

Record Response (B : Type) := MkResponse {
  status : Z;
  body : Body B
}.
Arguments MkResponse {B} status body.
Arguments status {B} r.
Arguments body {B} r.

(** The body has the shape [{error: string}]. *)
Definition is_error_body {B} (b : Body B) : Prop :=
  exists msg : string, b = ErrorBody msg.

(** [error.response?.data?.error?.message || error.message || '...'] *)
Definition clientMessage (error : JsError) : string :=
  str_or (response_data_error_message error)
    (str_or (err_message error) "An internal server error occurred.").

(** [sendErrorResponse(res, error, statusCode = 500, context = 'Error')];
    [context] only reaches the console. *)
Definition sendErrorResponse {B} (error : JsError) (statusCode : Z)
  : Response B :=
  MkResponse statusCode (ErrorBody (clientMessage error)).

(** ** Path and string helpers of the platform *)

(** A name is held as the sequence of its UTF-8 bytes: a character of the
    ASCII range is one byte below 128, every other character is made of
    bytes from 128 on. *)
Definition is_ascii_char (c : ascii) : bool := (N_of_ascii c <? 128)%N.

Fixpoint is_ascii (s : string) : bool :=
  match s with
  | EmptyString => true
  | String c rest => is_ascii_char c && is_ascii rest
  end.

(** Lowercasing within the ASCII range: the letters A to Z move to a to z
    and nothing else changes. *)
Definition lower_ascii (c : ascii) : ascii :=
  let n := N_of_ascii c in
  if ((65 <=? n) && (n <=? 90))%N then ascii_of_N (n + 32) else c.

Fixpoint ascii_toLowerCase (s : string) : string :=
  match s with
  | EmptyString => EmptyString
  | String c rest => String (lower_ascii c) (ascii_toLowerCase rest)
  end.

(** [String.prototype.toLowerCase].  The function follows the Unicode case
    mappings (it turns the Kelvin sign U+212A into [k], for one), so it is
    taken as it is, a parameter of the code that calls it, together with
    the one fact relied on: on a string of ASCII characters it lowercases
    the letters A to Z and changes nothing else. *)
Record LowerCasing := {
  toLowerCase : string -> string;
  toLowerCase_ascii :
    forall s : string, is_ascii s = true -> toLowerCase s = ascii_toLowerCase s
}.

(** The lowercasing that leaves every byte outside the ASCII range alone.
    It agrees with every [LowerCasing] on names made of ASCII characters
    and serves to run the filter on such names. *)
Definition ascii_lowercasing : LowerCasing :=
  {| toLowerCase := ascii_toLowerCase;
     toLowerCase_ascii := fun s _ => eq_refl |}.

(** Node's [path.extname], POSIX flavour.  The library scans the path from
    its last character to its first and keeps five variables. *)
Record ExtScan := MkExtScan {
  startDot : Z;
  startPart : Z;
  scan_end : Z;
  matchedSlash : bool;
  preDotState : Z
}.

Definition ext_scan_init : ExtScan := MkExtScan (-1) 0 (-1) true 0.

(** [rev_chars] holds the characters at indices [i], [i-1], ..., [0]. *)
Fixpoint extname_scan (rev_chars : list ascii) (i : Z) (st : ExtScan)
  : ExtScan :=
  match rev_chars with
  | [] => st
  | c :: rest =>
      if Ascii.eqb c "/" then
        if negb (matchedSlash st) then
          (* a separator that is not trailing: stop *)
          MkExtScan (startDot st) (i + 1) (scan_end st)
                    (matchedSlash st) (preDotState st)
        else extname_scan rest (i - 1) st
      else
        let st1 :=
          if scan_end st =? -1
          then MkExtScan (startDot st) (startPart st) (i + 1) false
                         (preDotState st)
          else st in
        let st2 :=
          if Ascii.eqb c "." then
            if startDot st1 =? -1
            then MkExtScan i (startPart st1) (scan_end st1)
                           (matchedSlash st1) (preDotState st1)
            else if negb (preDotState st1 =? 1)
            then MkExtScan (startDot st1) (startPart st1) (scan_end st1)
                           (matchedSlash st1) 1
            else st1
          else if negb (startDot st1 =? -1)
          then MkExtScan (startDot st1) (startPart st1) (scan_end st1)
                         (matchedSlash st1) (-1)
          else st1 in
        extname_scan rest (i - 1) st2
  end.

Definition extname (path : string) : string :=
  let chars := String.list_ascii_of_string path in
  let st := extname_scan (rev chars) (Z.of_nat (length chars) - 1)
                         ext_scan_init in
  if (startDot st =? -1) || (scan_end st =? -1) || (preDotState st =? 0)
     || ((preDotState st =? 1) && (startDot st =? scan_end st - 1)
         && (startDot st =? startPart st + 1))
  then ""
  else String.substring (Z.to_nat (startDot st))
                        (Z.to_nat (scan_end st - startDot st)) path.

(** ** Upload filter *)

(** [req.file]: the name the client gave and the path under [UPLOADS_DIR]
    where the disk storage stages the content once the filter accepted it. *)
Record UploadedFile := {
  originalname : string;
  file_path : string
}.

(** [cb(null, true)] or [cb(new Error(...))]. *)
Inductive FilterResult :=
| Accept
| Reject (error : JsError).

Definition fileFilter (lc : LowerCasing) (file : UploadedFile)
  : FilterResult :=
  let ext := toLowerCase lc (extname (originalname file)) in
  if negb (String.eqb ext KQL_EXTENSION)
  then Reject {| err_name := "Error";
                 err_message :=
                   Some ("Only " +:+ KQL_EXTENSION +:+ " files are allowed");
                 response_data_error_message := None |}
  else Accept.

(** [upload.single('file')]: without a file part the handler runs with
    [req.file] undefined; a rejected file is not staged and the error goes to
    [next(err)], so the route handler does not run. *)
Inductive MiddlewareResult :=
| Next (file : option UploadedFile)
| NextError (error : JsError).

Definition upload_single (lc : LowerCasing) (incoming : option UploadedFile)
  : MiddlewareResult :=
  match incoming with
  | None => Next None
  | Some f =>
      match fileFilter lc f with
      | Accept => Next (Some f)
      | Reject e => NextError e
      end
  end.

(** ** File system calls of the upload route *)
Inductive FsE : Type -> Type :=
| UnlinkSync (path : string) : FsE unit
| ExistsSync (path : string) : FsE bool.

(** Sum of two call signatures. *)
Inductive sumE (E F : Type -> Type) (X : Type) : Type :=
| inlE (e : E X)
| inrE (f : F X).
Arguments inlE {E F X} e.
Arguments inrE {E F X} f.
Infix "+'" := sumE (at level 60, right associativity).

(** ** Resources of the SIEM workspace, as the routes return them *)

Record Tag := {
  tag_name : string;
  tag_value : string
}.

Record SavedSearchProperties := {
  category : string;
  ss_displayName : string;
  ss_query : string;
  ss_description : string;
  tags : list Tag
}.

Record SavedSearch := {
  ss_id : string;
  ss_name : string;
  ss_properties : SavedSearchProperties
}.

Record HuntProperties := {
  hunt_displayName : string;
  hunt_description : string;
  hunt_status : string;
  hunt_labels : list string
}.

Record Hunt := {
  hunt_id : string;
  hunt_name : string;
  hunt_properties : HuntProperties
}.

Record RelationProperties := {
  relatedResourceId : string;
  relatedResourceType : string;
  rel_labels : list string
}.

Record Relation := {
  rel_id : string;
  rel_name : string;
  rel_properties : RelationProperties
}.

(** One aggregate of a purge: [{ message }] or [{ error }]. *)
Record PurgeResultDetail := {
  message : option string;
  error : option string
}.

(** [queryCleanup] and [huntCleanup] are read through [?.]: each may be
    missing. *)
Record PurgeResult := {
  queryCleanup : option PurgeResultDetail;
  huntCleanup : option PurgeResultDetail
}.

(** [detail?.error] *)
Definition opt_error (detail : option PurgeResultDetail) : option string :=
  match detail with
  | Some d => error d
  | None => None
  end.

(** ** Request bodies *)

(** Body of [POST /api/register-app]. *)
Record RegisterAppBody := {
  appName : option string;
  req_redirectUris : option (list string)
}.

Record RegisteredBody := {
  reg_message : string;
  reg_appId : string;
  reg_objectId : string;
  reg_body_displayName : string
}.

(** Body of [POST /api/hunting-queries]; the bulk route adds [huntName] and
    [huntDescription]. *)
Record QueryInput := {
  qi_name : option string;
  qi_description : option string;
  qi_query : option string;
  qi_tactics : option string;
  qi_techniques : option string;
  qi_extid : option string;
  huntName : option string;
  huntDescription : option string
}.

(** ** Routes *)

(** [app.post('/api/register-app', ...)] *)
Definition post_register_app (req_body : RegisterAppBody)
  : Prog GraphE (Response RegisteredBody) :=
  try_catch
    (let effectiveAppName := str_or (appName req_body) DEFAULT_APP_NAME in
     app <- registerApplication effectiveAppName
              (Some (default [] (req_redirectUris req_body))) ;;
     addSentinelPermissions (app_id app) ;;;
     Ret (MkResponse 201 (Json
       {| reg_message :=
            "Application registered and permissions added successfully";
          reg_appId := app_appId app;
          reg_objectId := app_id app;
          reg_body_displayName := app_displayName app |})))
    (fun error => Ret (sendErrorResponse error 500)).

Section ImportedRoutes.
(** The routes below call functions imported from the hunting-queries
    module; they are programs over whatever calls [E] that module makes. *)
Context {E : Type -> Type}.

(** [app.post('/api/hunting-queries', ...)] *)
Definition post_hunting_queries
    (createQueryFromInput : QueryInput -> Prog E SavedSearch)
    (req_body : QueryInput) : Prog E (Response SavedSearch) :=
  try_catch
    (result <- createQueryFromInput req_body ;;
     Ret (MkResponse 201 (Json result)))
    (fun error => Ret (sendErrorResponse error 500)).

(** [app.post('/api/bulk-create-hunt', ...)] *)
Definition post_bulk_create_hunt
    (createHuntWithQuery : QueryInput -> Prog E Relation)
    (req_body : QueryInput) : Prog E (Response Relation) :=
  try_catch
    (result <- createHuntWithQuery req_body ;;
     Ret (MkResponse 201 (Json result)))
    (fun error => Ret (sendErrorResponse error 500)).

(** [app.delete('/api/purge', ...)] *)
Definition delete_purge (purgeSentinel : Prog E PurgeResult)
  : Prog E (Response PurgeResult) :=
  try_catch
    (result <- purgeSentinel ;;
     if truthy_str (opt_error (queryCleanup result))
        || truthy_str (opt_error (huntCleanup result))
     then Ret (MkResponse 207 (Json result))
     else Ret (MkResponse 200 (Json result)))
    (fun error => Ret (sendErrorResponse error 500)).

(** [app.post('/api/hunting-queries/upload', upload.single('file'), ...)]:
    the handler, given [req.file]. *)
Definition post_hunting_queries_upload
    (createQueryFromFile : string -> Prog (FsE +' E) SavedSearch)
    (req_file : option UploadedFile)
  : Prog (FsE +' E) (Response SavedSearch) :=
  try_catch
    (match req_file with
     | None => Ret (MkResponse 400 (ErrorBody "No file uploaded"))
     | Some file =>
         result <- createQueryFromFile (file_path file) ;;
         await (inlE (UnlinkSync (file_path file))) ;;;
         Ret (MkResponse 201 (Json result))
     end)
    (fun error =>
       (match req_file with
        | Some file =>
            if negb (String.eqb (file_path file) "") then
              present <- await (inlE (ExistsSync (file_path file))) ;;
              if (present : bool) then
                try_catch
                  (await (inlE (UnlinkSync (file_path file))))
                  (fun cleanupError => Ret tt)
              else Ret tt
            else Ret tt
        | None => Ret tt
        end) ;;;
       Ret (sendErrorResponse error 500)).

(** The route behind its middleware: when the filter rejects the file the
    error is passed on and the handler above does not run. *)
Definition upload_endpoint (lc : LowerCasing)
    (createQueryFromFile : string -> Prog (FsE +' E) SavedSearch)
    (incoming : option UploadedFile)
  : Prog (FsE +' E) (Response SavedSearch) :=
  match upload_single lc incoming with
  | Next req_file => post_hunting_queries_upload createQueryFromFile req_file
  | NextError e => Throw e
  end.
End ImportedRoutes.

(** ** The file system of the upload route: the existing paths, and among
    them those the process is not allowed to remove.  [unlinkSync] removes
    an existing path, fails with ENOENT on a missing one and with EPERM on
    one it may not remove; [existsSync] never fails.  The errors carry the
    messages Node gives them: code, description, system call and path. *)
Record FileSystem := MkFileSystem {
  existing : gset string;
  undeletable : gset string
}.

Definition ENOENT (path : string) : JsError :=
  {| err_name := "Error";
     err_message :=
       Some ("ENOENT: no such file or directory, unlink '" +:+ path +:+ "'");
     response_data_error_message := None |}.

Definition EPERM (path : string) : JsError :=
  {| err_name := "Error";
     err_message :=
       Some ("EPERM: operation not permitted, unlink '" +:+ path +:+ "'");
     response_data_error_message := None |}.

Definition fs_handler {X} (e : FsE X) (fs : FileSystem)
  : (JsError + X) * FileSystem :=
  match e in FsE X return (JsError + X) * FileSystem with
  | UnlinkSync p =>
      if bool_decide (p ∈ existing fs) then
        if bool_decide (p ∈ undeletable fs) then (inl (EPERM p), fs)
        else (inr tt, MkFileSystem (existing fs ∖ {[ p ]}) (undeletable fs))
      else (inl (ENOENT p), fs)
  | ExistsSync p => (inr (bool_decide (p ∈ existing fs)), fs)
  end.

(** A world of the upload route: the file system and whatever state [S] the
    imported module's collaborators keep.  The imported module's own calls
    are answered by [hE], which may read and change both. *)
Definition upload_handler {E : Type -> Type} {S : Type}
    (hE : Handler E (FileSystem * S)) : Handler (FsE +' E) (FileSystem * S) :=
  fun X ev w =>
    match ev with
    | inlE e => let '(r, fs') := fs_handler e w.1 in (r, (fs', w.2))
    | inrE e => hE X e w
    end.

(* ===================================================================== *)
(** * The hunting-queries module *)
(* ===================================================================== *)

(** Modelled from the spec: the primitives of the SIEM client that the
    hunting-queries module calls (the client module is not part of the
    sources).  Creation and deletion of the three resource kinds, the random
    identifier used as a caller-chosen resource name, and the read of an
    uploaded file. *)
Inductive SentinelE : Type -> Type :=
| CreateSavedSearch (name : string) (props : SavedSearchProperties)
    : SentinelE SavedSearch
| CreateHunt (name : string) (props : HuntProperties) : SentinelE Hunt
| CreateRelation (huntId : string) (name : string)
    (props : RelationProperties) : SentinelE Relation
| DeleteSavedSearch (name : string) : SentinelE unit
| DeleteHunt (name : string) : SentinelE unit
| DeleteRelation (huntId : string) (name : string) : SentinelE unit
| NewResourceName : SentinelE string
| ReadFile (path : string) : SentinelE string.

(** Modelled from the spec: what the specification leaves open about the
    hunting-queries module (section 4.1 to 4.3 and the design notes): the
    value of the Attribution Label and the tag name under which a saved
    search stores it, the category of a hunting query, how a scalar
    [tactics] or [techniques] string is split into entries, the header
    convention of uploaded files, well-formedness of a saved-search resource
    path, and the fixed status and relation type. *)
Record Conventions := {
  ATTRIBUTION_LABEL : string;
  label_tag_name : string;
  query_category : string;
  split_entries : string -> list string;
  parse_kql_file : string -> option QueryInput;
  well_formed_query_id : string -> bool;
  initial_hunt_status : string;
  saved_search_type : string
}.

Definition ValidationError (msg : string) : JsError :=
  {| err_name := "ValidationError";
     err_message := Some msg;
     response_data_error_message := None |}.

Definition ParseError (msg : string) : JsError :=
  {| err_name := "ParseError";
     err_message := Some msg;
     response_data_error_message := None |}.

Section HuntingQueries.
Context (cv : Conventions).

(** Modelled from the spec: the Attribution Tagger, for the tag set of a
    saved search and for the label set of a hunt or a relation. *)
Definition attribution_tag : Tag :=
  {| tag_name := label_tag_name cv; tag_value := ATTRIBUTION_LABEL cv |}.

Definition stamp_tags (ts : list Tag) : list Tag := ts ++ [ attribution_tag ].

Definition stamp_labels (ls : list string) : list string :=
  ls ++ [ ATTRIBUTION_LABEL cv ].

(** Modelled from the spec: one tag entry per tactic and one per
    technique (section 4.1). *)
Definition mitre_tags (input : QueryInput) : list Tag :=
  ((fun t => {| tag_name := "tactics"; tag_value := t |})
     <$> from_option (split_entries cv) [] (qi_tactics input))
  ++
  ((fun t => {| tag_name := "techniques"; tag_value := t |})
     <$> from_option (split_entries cv) [] (qi_techniques input)).

(** Modelled from the spec: [createFromInput] (section 4.1).  [name] and
    [query] are required; the label is stamped before the create
    primitive is called; remote errors propagate unchanged.  The spec does
    not say where the optional external id is kept, so it is not part of
    the payload. *)
Definition createQueryFromInput (input : QueryInput)
  : Prog SentinelE SavedSearch :=
  match qi_name input, qi_query input with
  | Some name, Some query =>
      resourceName <- await NewResourceName ;;
      await (CreateSavedSearch resourceName
               {| category := query_category cv;
                  ss_displayName := name;
                  ss_query := query;
                  ss_description := default "" (qi_description input);
                  tags := stamp_tags (mitre_tags input) |})
  | _, _ => Throw (ValidationError "name and query are required")
  end.

(** Modelled from the spec: [createFromFile] (section 4.1).  Reads the
    file as text, parses the header convention, fails with [ParseError]
    without a KQL body, never deletes the file. *)
Definition createQueryFromFile (path : string) : Prog SentinelE SavedSearch :=
  text <- await (ReadFile path) ;;
  match parse_kql_file cv text with
  | Some input => createQueryFromInput input
  | None => Throw (ParseError "no KQL query found in file")
  end.

(** Modelled from the spec: [createHunt] (section 4.2). *)
Definition createSentinelHunt (name description : option string)
  : Prog SentinelE Hunt :=
  match name with
  | Some displayName =>
      resourceName <- await NewResourceName ;;
      await (CreateHunt resourceName
               {| hunt_displayName := displayName;
                  hunt_description := default "" description;
                  hunt_status := initial_hunt_status cv;
                  hunt_labels := stamp_labels [] |})
  | None => Throw (ValidationError "name is required")
  end.

(** Modelled from the spec: [linkQueryToHunt] (section 4.3). *)
Definition linkQueryToHunt (huntId queryResourceId : option string)
  : Prog SentinelE Relation :=
  match huntId, queryResourceId with
  | Some hid, Some qid =>
      if well_formed_query_id cv qid then
        relationName <- await NewResourceName ;;
        await (CreateRelation hid relationName
                 {| relatedResourceId := qid;
                    relatedResourceType := saved_search_type cv;
                    rel_labels := stamp_labels [] |})
      else Throw (ValidationError "queryResourceId is not a saved search")
  | _, _ => Throw (ValidationError "huntId and queryResourceId are required")
  end.

(** Modelled from the spec: [createHuntWithQuery] (section 4.4): validate,
    then SavedSearch, then Hunt, then Relation, with no compensating
    rollback. *)
Definition createHuntWithQuery (payload : QueryInput)
  : Prog SentinelE Relation :=
  match qi_name payload, qi_query payload, huntName payload with
  | Some _, Some _, Some _ =>
      savedSearch <- createQueryFromInput payload ;;
      hunt <- createSentinelHunt (huntName payload)
                (huntDescription payload) ;;
      linkQueryToHunt (Some (hunt_name hunt)) (Some (ss_id savedSearch))
  | _, _, _ =>
      Throw (ValidationError "name, query and huntName are required")
  end.
End HuntingQueries.

(** ** Classification of the calls of a run *)

Definition is_remote (ev : Event SentinelE) : bool :=
  match ev with
  | Ev NewResourceName => false
  | Ev _ => true
  end.

Definition is_create_relation (ev : Event SentinelE) : bool :=
  match ev with
  | Ev (CreateRelation _ _ _) => true
  | Ev _ => false
  end.

Definition is_sentinel_delete (ev : Event SentinelE) : bool :=
  match ev with
  | Ev (DeleteSavedSearch _) | Ev (DeleteHunt _) | Ev (DeleteRelation _ _) =>
      true
  | Ev _ => false
  end.

Definition is_create_saved_search (ev : Event SentinelE) : bool :=
  match ev with
  | Ev (CreateSavedSearch _ _) => true
  | Ev _ => false
  end.

(** A creation call carries the Attribution Label in its payload; a call
    that creates nothing has nothing to carry. *)
Definition stamped (cv : Conventions) (ev : Event SentinelE) : Prop :=
  match ev with
  | Ev (CreateSavedSearch _ props) => attribution_tag cv ∈ tags props
  | Ev (CreateHunt _ props) => ATTRIBUTION_LABEL cv ∈ hunt_labels props
  | Ev (CreateRelation _ _ props) => ATTRIBUTION_LABEL cv ∈ rel_labels props
  | Ev _ => True
  end.



(** ** A reference workspace *)

(** Modelled from the spec: the remote workspace (section 3).  A stored
    resource is a saved search, a hunt, or a relation under a hunt. *)
Inductive Stored :=
| StoredQuery (s : SavedSearch)
| StoredHunt (h : Hunt)
| StoredRelation (huntId : string) (r : Relation).

Definition stored_name (r : Stored) : string :=
  match r with
  | StoredQuery s => ss_name s
  | StoredHunt h => hunt_name h
  | StoredRelation _ r => rel_name r
  end.

Definition carries_label (cv : Conventions) (r : Stored) : Prop :=
  match r with
  | StoredQuery s => attribution_tag cv ∈ tags (ss_properties s)
  | StoredHunt h => ATTRIBUTION_LABEL cv ∈ hunt_labels (hunt_properties h)
  | StoredRelation _ r => ATTRIBUTION_LABEL cv ∈ rel_labels (rel_properties r)
  end.

(** The content of the workspace, split by who created it: [created] holds
    what arrived through this integration's client, [foreign] everything
    else.  [answered] counts the calls answered so far. *)
Record Workspace := MkWorkspace {
  created : list Stored;
  foreign : list Stored;
  answered : nat
}.

(** What the remote side decides on its own: which calls it rejects, the
    identifiers it hands out, the resource id it assigns to a name, and the
    text of the staged files. *)
Record Remote := {
  rejects : forall X, SentinelE X -> Workspace -> option JsError;
  fresh_name : Workspace -> string;
  resource_id : string -> string;
  file_text : string -> string
}.

Definition store (r : Stored) (w : Workspace) : Workspace :=
  MkWorkspace (created w ++ [ r ]) (foreign w) (S (answered w)).

Definition tick (w : Workspace) : Workspace :=
  MkWorkspace (created w) (foreign w) (S (answered w)).

Definition keeps (target : Stored -> bool) (w : Workspace) : Workspace :=
  MkWorkspace (filter (fun r => negb (target r) = true) (created w))
              (filter (fun r => negb (target r) = true) (foreign w))
              (S (answered w)).

Definition accept_call (rm : Remote) {X} (ev : SentinelE X) (w : Workspace)
  : (JsError + X) * Workspace :=
  match ev in SentinelE X return (JsError + X) * Workspace with
  | CreateSavedSearch name props =>
      let s := {| ss_id := resource_id rm name; ss_name := name;
                  ss_properties := props |} in
      (inr s, store (StoredQuery s) w)
  | CreateHunt name props =>
      let h := {| hunt_id := resource_id rm name; hunt_name := name;
                  hunt_properties := props |} in
      (inr h, store (StoredHunt h) w)
  | CreateRelation huntId name props =>
      let r := {| rel_id := resource_id rm name; rel_name := name;
                  rel_properties := props |} in
      (inr r, store (StoredRelation huntId r) w)
  | DeleteSavedSearch name =>
      (inr tt,
       keeps (fun r => match r with
                       | StoredQuery s => String.eqb (ss_name s) name
                       | _ => false
                       end) w)
  | DeleteHunt name =>
      (inr tt,
       keeps (fun r => match r with
                       | StoredHunt h => String.eqb (hunt_name h) name
                       | StoredRelation hid _ => String.eqb hid name
                       | _ => false
                       end) w)
  | DeleteRelation huntId name =>
      (inr tt,
       keeps (fun r => match r with
                       | StoredRelation hid r =>
                           String.eqb hid huntId && String.eqb (rel_name r) name
                       | _ => false
                       end) w)
  | NewResourceName => (inr (fresh_name rm w), tick w)
  | ReadFile path => (inr (file_text rm path), tick w)
  end.

Definition workspace_handler (rm : Remote) : Handler SentinelE Workspace :=
  fun X ev w =>
    match rejects rm X ev w with
    | Some e => (inl e, tick w)
    | None => accept_call rm ev w
    end.

(** Ownership by label: what this integration created carries the label
    and nothing else in the workspace does. *)
Definition label_iff_owned (cv : Conventions) (w : Workspace) : Prop :=
  Forall (carries_label cv) (created w) /\
  Forall (fun r => ~ carries_label cv r) (foreign w).

(** The creation paths of the system. *)
Inductive CreationPath :=
| FromInput (input : QueryInput)
| FromFile (path : string)
| NewHunt (name description : option string)
| LinkQuery (huntId queryResourceId : option string)
| Bulk (payload : QueryInput).

(** World and trace of a run, whatever it returned. *)
Definition effects {E W A} (o : Outcome E W A) : W * list (Event E) :=
  (world o, trace o).

Definition run_path {W} (cv : Conventions) (h : Handler SentinelE W)
    (p : CreationPath) (w : W) : W * list (Event SentinelE) :=
  match p with
  | FromInput input => effects (run h (createQueryFromInput cv input) w)
  | FromFile path => effects (run h (createQueryFromFile cv path) w)
  | NewHunt name description =>
      effects (run h (createSentinelHunt cv name description) w)
  | LinkQuery huntId queryResourceId =>
      effects (run h (linkQueryToHunt cv huntId queryResourceId) w)
  | Bulk payload => effects (run h (createHuntWithQuery cv payload) w)
  end.

(** ** Auxiliary definitions for the statements *)

(** Every call a program can issue, whatever the replies, satisfies [P]. *)
Inductive all_calls {E : Type -> Type} {A : Type} (P : Event E -> Prop)
  : Prog E A -> Prop :=
| all_calls_ret (a : A) : all_calls P (Ret a)
| all_calls_throw (e : JsError) : all_calls P (Throw e)
| all_calls_call {X} (ev : E X) (k : JsError + X -> Prog E A) :
    P (Ev ev) -> (forall r, all_calls P (k r)) -> all_calls P (Call ev k).

(** Running a program of one signature inside a sum of signatures. *)
Fixpoint inject_r {E F : Type -> Type} {A} (p : Prog F A) : Prog (E +' F) A :=
  match p with
  | Ret a => Ret a
  | Throw e => Throw e
  | Call ev k => Call (inrE ev) (fun r => inject_r (k r))
  end.

(** A reference directory: applications by resource path.  GET and PATCH of
    an unknown path are rejected, POST assigns the next object id. *)
Definition NotFound : JsError :=
  {| err_name := "GraphError";
     err_message := Some "Resource does not exist";
     response_data_error_message := Some "Request_ResourceNotFound" |}.

Definition directory_handler : Handler GraphE (gmap string Application) :=
  fun X ev =>
    match ev in GraphE X
          return gmap string Application ->
                 (JsError + X) * gmap string Application with
    | ApiGet path => fun dir =>
        match dir !! path with
        | Some app => (inr app, dir)
        | None => (inl NotFound, dir)
        end
    | ApiPost path body => fun dir =>
        let objectId := "object-" +:+ pretty (size dir) in
        let app := {| app_id := objectId;
                      app_appId := "client-" +:+ pretty (size dir);
                      app_displayName := reg_displayName body;
                      app_requiredResourceAccess :=
                        Defined (reg_requiredResourceAccess body) |} in
        (inr app, <[ path +:+ "/" +:+ objectId := app ]> dir)
    | ApiPatch path body => fun dir =>
        match dir !! path with
        | Some app =>
            (inr tt,
             <[ path := {| app_id := app_id app;
                           app_appId := app_appId app;
                           app_displayName := app_displayName app;
                           app_requiredResourceAccess :=
                             Defined (patch_requiredResourceAccess body) |} ]>
               dir)
        | None => (inl NotFound, dir)
        end
    | ApiDelete path => fun dir => (inr tt, delete path dir)
    end.

(** An aggregate carries an error when its [error] property holds an error
    description, that is a non-empty string. *)
Definition carries_error (detail : option PurgeResultDetail) : Prop :=
  exists d msg, detail = Some d /\ error d = Some msg /\ msg <> "".

(** [s] is [lower] up to the case of its letters. *)
Definition upper_ascii (c : ascii) : ascii :=
  let n := N_of_ascii c in
  if ((97 <=? n) && (n <=? 122))%N then ascii_of_N (n - 32) else c.

Fixpoint is_case_variant (s lower : string) : bool :=
  match s, lower with
  | EmptyString, EmptyString => true
  | String c s', String l lower' =>
      (Ascii.eqb c l || Ascii.eqb c (upper_ascii l)) && is_case_variant s' lower'
  | _, _ => false
  end.

(** ** Sample data *)

Definition sample_app : Application :=
  {| app_id := "object-0";
     app_appId := "client-0";
     app_displayName := "Hunting console";
     app_requiredResourceAccess := Defined [ graphUserRead ] |}.

(** An application whose [requiredResourceAccess] is [null]. *)
Definition sample_bare_app : Application :=
  {| app_id := "object-1";
     app_appId := "client-1";
     app_displayName := "Bare";
     app_requiredResourceAccess := Null |}.

(** A directory holding both. *)
Definition sample_directory : gmap string Application :=
  <[ "/applications/object-0" := sample_app ]>
    (<[ "/applications/object-1" := sample_bare_app ]> ∅).

(** A call that neither creates a relation nor deletes anything. *)
Definition quiet (ev : Event SentinelE) : Prop :=
  is_create_relation ev = false /\ is_sentinel_delete ev = false.

(** The file system after [unlinkSync(path)] was attempted where allowed. *)
Definition without (path : string) (fs : FileSystem) : FileSystem :=
  if bool_decide (path ∈ undeletable fs) then fs
  else MkFileSystem (existing fs ∖ {[ path ]}) (undeletable fs).

(** The imported module's collaborators kept next to the file system. *)
Definition with_files {E : Type -> Type} {S : Type} (h : Handler E S)
  : Handler E (FileSystem * S) :=
  fun X ev w => let '(r, s') := h X ev w.2 in (r, (w.1, s')).

(** Collaborators that reject every call. *)
Definition no_calls : Handler SentinelE unit :=
  fun X ev w => (inl NotFound, w).

(** A directory that loses every application right after creating it: the
    permission step then fails on its GET. *)
Definition forgetful_directory : Handler GraphE (gmap string Application) :=
  fun X ev dir =>
    match ev with
    | ApiPost _ _ => ((directory_handler X ev dir).1, ∅)
    | _ => directory_handler X ev dir
    end.

(** A purge whose query cleanup failed and whose hunt cleanup succeeded. *)
Definition sample_partial_purge : PurgeResult :=
  {| queryCleanup :=
       Some {| message := None; error := Some "Failed to delete queries" |};
     huntCleanup :=
       Some {| message := Some "Deleted 2 hunts"; error := None |} |}.

(** [POST /hunting-queries] with [{query: "Heartbeat | take 1"}]: no
    [name]. *)
Definition sample_missing_name : QueryInput :=
  {| qi_name := None;
     qi_description := None;
     qi_query := Some "Heartbeat | take 1";
     qi_tactics := None;
     qi_techniques := None;
     qi_extid := None;
     huntName := None;
     huntDescription := None |}.

(** One choice of conventions: uploaded text is a query when it is not
    empty. *)
Definition sample_conventions : Conventions :=
  {| ATTRIBUTION_LABEL := "huntsAPI";
     label_tag_name := "createdBy";
     query_category := "Hunting Queries";
     split_entries := fun s => [ s ];
     parse_kql_file := fun text =>
       match text with
       | "" => None
       | _ => Some {| qi_name := Some "Uploaded query";
                      qi_description := None;
                      qi_query := Some text;
                      qi_tactics := None;
                      qi_techniques := None;
                      qi_extid := None;
                      huntName := None;
                      huntDescription := None |}
       end;
     well_formed_query_id := String.prefix "/subscriptions/";
     initial_hunt_status := "New";
     saved_search_type := "Microsoft.OperationalInsights/savedSearches" |}.

(** A remote side that accepts every call. *)
Definition sample_remote : Remote :=
  {| rejects := fun X ev w => None;
     fresh_name := fun w => "guid-" +:+ pretty (answered w);
     resource_id := fun name => "/subscriptions/s/savedSearches/" +:+ name;
     file_text := fun path => "Heartbeat | take 1" |}.

(** The rejection of a call the credential is not allowed to make. *)
Definition Forbidden : JsError :=
  {| err_name := "RemoteError";
     err_message := Some "Request failed with status code 403";
     response_data_error_message := Some "AuthorizationFailed" |}.


(** A workspace holding one hunt that somebody else created. *)
Definition sample_workspace : Workspace :=
  {| created := [];
     foreign :=
       [ StoredHunt {| hunt_id := "/subscriptions/s/hunts/h0";
                       hunt_name := "h0";
                       hunt_properties :=
                         {| hunt_displayName := "Analyst hunt";
                            hunt_description := "";
                            hunt_status := "Active";
                            hunt_labels := [ "manual" ] |} |} ];
     answered := 0 |}.

(** Body of a bulk request. *)
Definition sample_bulk : QueryInput :=
  {| qi_name := Some "q1";
     qi_description := None;
     qi_query := Some "Heartbeat | take 1";
     qi_tactics := Some "Discovery";
     qi_techniques := None;
     qi_extid := None;
     huntName := Some "Heartbeat hunt";
     huntDescription := None |}.

(** An upload staged next to an unrelated file. *)
Definition sample_upload : UploadedFile :=
  {| originalname := "Heartbeat.KQL"; file_path := "uploads/3f2a9c" |}.

Definition sample_files : FileSystem :=
  {| existing := {[ "uploads/3f2a9c"; "uploads/keep" ]};
     undeletable := ∅ |}.

(* ===================================================================== *)
(** * The remaining routes and the start-up code of the server module *)
(* ===================================================================== *)

(** Body of [POST /api/hunts]. *)
Record HuntInput := {
  hi_name : option string;
  hi_description : option string
}.

(** Body of [POST /api/link-query]. *)
Record LinkInput := {
  link_huntId : option string;
  link_queryResourceId : option string
}.

(** Body of [POST /api/hunting-queries/run]. *)
Record RunInput := {
  run_query : option string;
  run_timespan : option string
}.

(** What [getHunts] returns: [{ value, nextLink }]. *)
Record HuntPage := {
  page_value : list Hunt;
  nextLink : option string
}.

Section MoreRoutes.
Context {E : Type -> Type}.

(** [app.get('/api/app-info', ...)]; [res.json(x)] answers with status
    200. *)
Definition get_app_info (getApplicationInfo : Prog E Application)
  : Prog E (Response Application) :=
  try_catch
    (appInfo <- getApplicationInfo ;;
     Ret (MkResponse 200 (Json appInfo)))
    (fun error => Ret (sendErrorResponse error 500)).

(** [app.get('/api/hunting-queries', ...)] *)
Definition get_hunting_queries (getHuntingQueries : Prog E (list SavedSearch))
  : Prog E (Response (list SavedSearch)) :=
  try_catch
    (queries <- getHuntingQueries ;;
     Ret (MkResponse 200 (Json queries)))
    (fun error => Ret (sendErrorResponse error 500)).

(** [app.get('/api/hunts', ...)] *)
Definition get_hunts (getHunts : Prog E HuntPage)
  : Prog E (Response HuntPage) :=
  try_catch
    (hunts <- getHunts ;;
     Ret (MkResponse 200 (Json hunts)))
    (fun error => Ret (sendErrorResponse error 500)).

(** [app.post('/api/hunts', ...)] *)
Definition post_hunts (createSentinelHunt : HuntInput -> Prog E Hunt)
    (req_body : HuntInput) : Prog E (Response Hunt) :=
  try_catch
    (result <- createSentinelHunt req_body ;;
     Ret (MkResponse 201 (Json result)))
    (fun error => Ret (sendErrorResponse error 500)).

(** [app.post('/api/link-query', ...)] *)
Definition post_link_query (linkQueryToHunt : LinkInput -> Prog E Relation)
    (req_body : LinkInput) : Prog E (Response Relation) :=
  try_catch
    (result <- linkQueryToHunt req_body ;;
     Ret (MkResponse 201 (Json result)))
    (fun error => Ret (sendErrorResponse error 500)).

(** [app.post('/api/hunting-queries/run', ...)]: [!query] holds for a
    missing and for an empty query; [timespan] is handed on as received. *)
Definition post_hunting_queries_run {R : Type}
    (runHuntingQuery : string -> option string -> Prog E R)
    (req_body : RunInput) : Prog E (Response R) :=
  try_catch
    (match run_query req_body with
     | None | Some "" => Ret (MkResponse 400 (ErrorBody "Query is required"))
     | Some query =>
         result <- runHuntingQuery query (run_timespan req_body) ;;
         Ret (MkResponse 200 (Json result))
     end)
    (fun error => Ret (sendErrorResponse error 500)).
End MoreRoutes.

(** The registration body that [POST /api/register-app] posts:
    [appName || DEFAULT_APP_NAME] and [redirectUris || []]. *)
Definition route_registration (req_body : RegisterAppBody) : AppRegistration :=
  appRegistration (str_or (appName req_body) DEFAULT_APP_NAME)
                  (Some (default [] (req_redirectUris req_body))).

(** What a route makes of the outcome of the one function it awaits: the
    value goes out under [code], an error under 500; world and calls are
    those of the function. *)
Definition relay {E : Type -> Type} {W A : Type} (code : Z)
    (o : Outcome E W A) : Outcome E W (Response A) :=
  MkOutcome
    (match result o with
     | inl e => inr (sendErrorResponse e 500)
     | inr a => inr (MkResponse code (Json a))
     end)
    (world o) (trace o).

(** Collaborators of the upload route that reject every call. *)
Definition no_calls_fs : Handler (FsE +' SentinelE) unit :=
  fun X ev w => (inl NotFound, w).

(** ** Start-up: [if (!fs.existsSync(UPLOADS_DIR)) fs.mkdirSync(UPLOADS_DIR)] *)
Inductive MkdirE : Type -> Type :=
| MkdirSync (path : string) : MkdirE unit.

Definition ensure_uploads_dir : Prog (FsE +' MkdirE) unit :=
  present <- await (inlE (ExistsSync UPLOADS_DIR)) ;;
  if negb present then await (inrE (MkdirSync UPLOADS_DIR)) else Ret tt.

Definition EEXIST (path : string) : JsError :=
  {| err_name := "Error";
     err_message :=
       Some ("EEXIST: file already exists, mkdir '" +:+ path +:+ "'");
     response_data_error_message := None |}.

(** [mkdirSync] creates a missing path and fails on an existing one. *)
Definition mkdir_handler : Handler MkdirE (FileSystem * unit) :=
  fun X ev w =>
    match ev in MkdirE X return (JsError + X) * (FileSystem * unit) with
    | MkdirSync p =>
        if bool_decide (p ∈ existing w.1) then (inl (EEXIST p), w)
        else (inr tt,
              (MkFileSystem (existing w.1 ∪ {[ p ]}) (undeletable w.1), w.2))
    end.

(** ** Decidable equality of the directory's grant entries *)
#[global] Instance ResourceAccess_eq_dec : EqDecision ResourceAccess.
Proof. solve_decision. Defined.

#[global] Instance RequiredResourceAccess_eq_dec :
  EqDecision RequiredResourceAccess.
Proof. solve_decision. Defined.

(** How often [entry] occurs in a list of grants. *)
Definition occurrences (entry : RequiredResourceAccess)
    (l : list RequiredResourceAccess) : nat :=
  length (filter (fun r => r = entry) l).

(** No character of [s] satisfies [p]. *)
Fixpoint none_of (p : ascii -> bool) (s : string) : bool :=
  match s with
  | EmptyString => true
  | String c rest => negb (p c) && none_of p rest
  end.

Definition is_dot (c : ascii) : bool := Ascii.eqb c ".".
Definition is_slash (c : ascii) : bool := Ascii.eqb c "/".
Definition is_dot_or_slash (c : ascii) : bool := is_dot c || is_slash c.

(** ** More sample data *)

(** An application that already holds the management grant. *)
Definition sample_granted_app : Application :=
  {| app_id := "object-2";
     app_appId := "client-2";
     app_displayName := "Granted";
     app_requiredResourceAccess :=
       Defined [ graphUserRead; managementPermissions ] |}.

(** A directory that answers every GET with [sample_granted_app] and
    accepts every other call. *)
Definition granted_directory : Handler GraphE unit :=
  fun X ev w =>
    match ev in GraphE X return (JsError + X) * unit with
    | ApiGet _ => (inr sample_granted_app, w)
    | ApiPost _ _ => (inr sample_granted_app, w)
    | ApiPatch _ _ => (inr tt, w)
    | ApiDelete _ => (inr tt, w)
    end.

(** A directory that rejects every call. *)
Definition closed_directory : Handler GraphE unit :=
  fun X ev w => (inl Forbidden, w).

(* ===================================================================== *)
(** * Laws of programs *)
(* ===================================================================== *)

Section ProgramLaws.
Context {E : Type -> Type} {W : Type} (h : Handler E W).

Lemma run_bind {A B} (p : Prog E A) (f : A -> Prog E B) (w : W) :
  run h (bind p f) w = seq_outcome (run h p w) (fun a => run h (f a)).
Proof.
  revert w. induction p as [a | e | X ev k IH]; intros w; simpl.
  - unfold seq_outcome; simpl. by destruct (run h (f a) w).
  - done.
  - destruct (h X ev w) as [r w']. rewrite IH.
    unfold seq_outcome, after; simpl.
    by destruct (result (run h (k r) w')).
Qed.

Lemma run_try_catch {A} (p : Prog E A) (g : JsError -> Prog E A) (w : W) :
  run h (try_catch p g) w = catch_outcome (run h p w) (fun e => run h (g e)).
Proof.
  revert w. induction p as [a | e | X ev k IH]; intros w; simpl.
  - done.
  - unfold catch_outcome; simpl. by destruct (run h (g e) w).
  - destruct (h X ev w) as [r w']. rewrite IH.
    unfold catch_outcome, after; simpl.
    by destruct (result (run h (k r) w')).
Qed.

(** [catch (error) { throw error; }] changes nothing. *)
Lemma run_rethrow {A} (p : Prog E A) (w : W) :
  run h (try_catch p (fun e => Throw e)) w = run h p w.
Proof.
  rewrite run_try_catch. unfold catch_outcome.
  destruct (run h p w) as [[e | a] w' t]; simpl; [| done].
  by rewrite app_nil_r.
Qed.

Lemma run_await {X} (ev : E X) (w : W) :
  run h (await ev) w =
  MkOutcome (h X ev w).1 (h X ev w).2 [Ev ev].
Proof.
  simpl. destruct (h X ev w) as [[e | x] w']; done.
Qed.

Lemma run_bind_ok {A B} (p : Prog E A) (f : A -> Prog E B) (w : W) (a : A) :
  result (run h p w) = inr a ->
  run h (bind p f) w =
  prepend (trace (run h p w)) (run h (f a) (world (run h p w))).
Proof.
  intros Hp. rewrite run_bind. unfold seq_outcome. by rewrite Hp.
Qed.

Lemma run_bind_err {A B} (p : Prog E A) (f : A -> Prog E B) (w : W)
    (e : JsError) :
  result (run h p w) = inl e ->
  run h (bind p f) w =
  MkOutcome (inl e) (world (run h p w)) (trace (run h p w)).
Proof.
  intros Hp. rewrite run_bind. unfold seq_outcome. by rewrite Hp.
Qed.

Lemma run_try_catch_ok {A} (p : Prog E A) (g : JsError -> Prog E A) (w : W)
    (a : A) :
  result (run h p w) = inr a ->
  run h (try_catch p g) w =
  MkOutcome (inr a) (world (run h p w)) (trace (run h p w)).
Proof.
  intros Hp. rewrite run_try_catch. unfold catch_outcome. by rewrite Hp.
Qed.

Lemma result_prepend {A} (t : list (Event E)) (o : Outcome E W A) :
  result (prepend t o) = result o.
Proof. reflexivity. Qed.

Lemma world_prepend {A} (t : list (Event E)) (o : Outcome E W A) :
  world (prepend t o) = world o.
Proof. reflexivity. Qed.

Lemma trace_prepend {A} (t : list (Event E)) (o : Outcome E W A) :
  trace (prepend t o) = t ++ trace o.
Proof. reflexivity. Qed.

Lemma run_try_catch_err {A} (p : Prog E A) (g : JsError -> Prog E A) (w : W)
    (e : JsError) :
  result (run h p w) = inl e ->
  run h (try_catch p g) w =
  prepend (trace (run h p w)) (run h (g e) (world (run h p w))).
Proof.
  intros Hp. rewrite run_try_catch. unfold catch_outcome. by rewrite Hp.
Qed.
End ProgramLaws.
Section CallLaws.
Context {E : Type -> Type}.

Lemma all_calls_await {X} (P : Event E -> Prop) (ev : E X) :
  P (Ev ev) -> all_calls P (await ev).
Proof.
  intros HP. constructor; [done |]. intros [e | x]; constructor.
Qed.

Lemma all_calls_bind {A B} (P : Event E -> Prop)
    (p : Prog E A) (f : A -> Prog E B) :
  all_calls P p -> (forall a, all_calls P (f a)) -> all_calls P (bind p f).
Proof.
  intros Hp Hf. induction Hp as [a | e | X ev k HP Hk IH]; simpl.
  - apply Hf.
  - constructor.
  - constructor; [done |]. intros r. apply IH.
Qed.

Lemma all_calls_try_catch {A} (P : Event E -> Prop)
    (p : Prog E A) (g : JsError -> Prog E A) :
  all_calls P p -> (forall e, all_calls P (g e)) ->
  all_calls P (try_catch p g).
Proof.
  intros Hp Hg. induction Hp as [a | e | X ev k HP Hk IH]; simpl.
  - constructor.
  - apply Hg.
  - constructor; [done |]. intros r. apply IH.
Qed.

Lemma all_calls_impl {A} (P Q : Event E -> Prop) (p : Prog E A) :
  (forall ev, P ev -> Q ev) -> all_calls P p -> all_calls Q p.
Proof.
  intros HPQ Hp. induction Hp as [a | e | X ev k HP Hk IH]; constructor; auto.
Qed.

Lemma all_calls_run {W A} (P : Event E -> Prop) (h : Handler E W)
    (p : Prog E A) (w : W) :
  all_calls P p -> Forall P (trace (run h p w)).
Proof.
  intros Hp. revert w.
  induction Hp as [a | e | X ev k HP Hk IH]; intros w; simpl.
  - constructor.
  - constructor.
  - destruct (h X ev w) as [r w']. simpl. constructor; [done |]. apply IH.
Qed.
End CallLaws.

(* ===================================================================== *)
(** * Registration flow *)
(* ===================================================================== *)

Section RegistrationFlow.
Context {W : Type} (h : Handler GraphE W).

Lemma run_registerApplication (appName : string)
    (redirectUris : option (list string)) (w : W) :
  run h (registerApplication appName redirectUris) w =
  MkOutcome (h _ (ApiPost "/applications"
                    (appRegistration appName redirectUris)) w).1
            (h _ (ApiPost "/applications"
                    (appRegistration appName redirectUris)) w).2
            [ Ev (ApiPost "/applications"
                    (appRegistration appName redirectUris)) ].
Proof.
  unfold registerApplication. rewrite run_rethrow. simpl.
  by destruct (h _ _ w) as [[e | app] w'].
Qed.

(** One run of [addApiPermissions], by the replies of the directory. *)
Lemma run_addApiPermissions (appObjectId : string)
    (permissions : list RequiredResourceAccess) (w : W) :
  run h (addApiPermissions appObjectId permissions) w =
  let path := "/applications/" +:+ appObjectId in
  match h _ (ApiGet path) w with
  | (inl e, w1) => MkOutcome (inl e) w1 [ Ev (ApiGet path) ]
  | (inr app, w1) =>
      let patch :=
        ApiPatch path
          {| patch_requiredResourceAccess :=
               arr_or_empty (app_requiredResourceAccess app)
               ++ permissions |} in
      match h _ patch w1 with
      | (inl e, w2) => MkOutcome (inl e) w2 [ Ev (ApiGet path); Ev patch ]
      | (inr _, w2) => MkOutcome (inr true) w2 [ Ev (ApiGet path); Ev patch ]
      end
  end.
Proof.
  unfold addApiPermissions. rewrite run_rethrow. simpl.
  destruct (h _ (ApiGet _) w) as [[e | app] w1]; simpl; [done |].
  by destruct (h _ (ApiPatch _ _) w1) as [[e | u] w2].
Qed.

(** C7. [registerApplication(appName, redirectUris)] issues exactly one
    call, a POST to [/applications], whose body lists exactly one required
    resource access, the hardcoded Microsoft Graph [User.Read] delegated
    scope, carries the redirect URIs the caller supplied (the empty list
    when the argument is left out), and enables both id-token and
    access-token issuance in its implicit-grant settings. *)
Theorem registerApplication_payload (appName : string)
    (supplied : list string) (w : W) :
  let payload := appRegistration appName (Some supplied) in
  trace (run h (registerApplication appName (Some supplied)) w)
    = [ Ev (ApiPost "/applications" payload) ] /\
  reg_displayName payload = appName /\
  reg_requiredResourceAccess payload =
    [ {| resourceAppId := "00000003-0000-0000-c000-000000000000";
         resourceAccess :=
           [ {| ra_id := "e1fe6dd8-ba31-4d61-89e7-88639da4683d";
                ra_type := "Scope" |} ] |} ] /\
  redirectUris (web payload) = supplied /\
  enableIdTokenIssuance (implicitGrantSettings (web payload)) = true /\
  enableAccessTokenIssuance (implicitGrantSettings (web payload)) = true /\
  redirectUris (web (appRegistration appName None)) = [].
Proof.
  intros payload. rewrite run_registerApplication. simpl. done.
Qed.

(** C1. When the directory returns the application, whatever its
    [requiredResourceAccess] holds, [addSentinelPermissions(objectId)]
    reads it and then issues one PATCH of the same application whose
    [requiredResourceAccess] is the list the application had, entry by
    entry and in the same order, followed by exactly one more entry, the
    Azure Service Management [user_impersonation] scope. *)
Theorem addSentinelPermissions_appends (objectId : string)
    (app : Application) (w w1 : W) :
  h _ (ApiGet ("/applications/" +:+ objectId)) w = (inr app, w1) ->
  let existing := arr_or_empty (app_requiredResourceAccess app) in
  exists written : list RequiredResourceAccess,
    trace (run h (addSentinelPermissions objectId) w)
      = [ Ev (ApiGet ("/applications/" +:+ objectId));
          Ev (ApiPatch ("/applications/" +:+ objectId)
                {| patch_requiredResourceAccess := written |}) ] /\
    written = existing ++ [ managementPermissions ] /\
    (forall (i : nat) entry,
        existing !! i = Some entry -> written !! i = Some entry) /\
    length written = S (length existing) /\
    written !! length existing =
      Some {| resourceAppId := "797f4846-ba00-4fd7-ba43-dac1f8f63013";
              resourceAccess :=
                [ {| ra_id := "41094075-9dad-400e-a0bd-54e686782033";
                     ra_type := "Scope" |} ] |}.
Proof.
  intros Hget existing.
  exists (existing ++ [ managementPermissions ]).
  split; [| split; [done | split; [| split]]].
  - unfold addSentinelPermissions. rewrite run_addApiPermissions. simpl.
    rewrite Hget. fold existing.
    by destruct (h _ (ApiPatch _ _) w1) as [[e | u] w2].
  - intros i entry Hi. by apply lookup_app_l_Some.
  - rewrite length_app. simpl. lia.
  - rewrite lookup_app_r by lia. by rewrite Nat.sub_diag.
Qed.

(** C9. When the application the directory returns has no
    [requiredResourceAccess] (the property is absent or [null]),
    [addApiPermissions] treats it as the empty list: it goes on to issue
    the PATCH, whose [requiredResourceAccess] is exactly the supplied
    permissions, and it returns [true] as soon as the directory accepts
    that PATCH; the only failure left is a rejection of the PATCH. *)
Theorem addApiPermissions_missing_field (appObjectId : string)
    (permissions : list RequiredResourceAccess) (app : Application)
    (reply : JsError + unit) (w w1 w2 : W) :
  h _ (ApiGet ("/applications/" +:+ appObjectId)) w = (inr app, w1) ->
  app_requiredResourceAccess app = Undefined \/
  app_requiredResourceAccess app = Null ->
  h _ (ApiPatch ("/applications/" +:+ appObjectId)
         {| patch_requiredResourceAccess := permissions |}) w1
    = (reply, w2) ->
  let o := run h (addApiPermissions appObjectId permissions) w in
  trace o = [ Ev (ApiGet ("/applications/" +:+ appObjectId));
              Ev (ApiPatch ("/applications/" +:+ appObjectId)
                    {| patch_requiredResourceAccess := permissions |}) ] /\
  world o = w2 /\
  result o = match reply with
             | inl e => inl e
             | inr _ => inr true
             end /\
  (reply = inr tt -> result o = inr true).
Proof.
  intros Hget Hmissing Hpatch o. subst o.
  rewrite run_addApiPermissions. simpl. rewrite Hget.
  assert (arr_or_empty (app_requiredResourceAccess app) = []) as ->
    by (destruct Hmissing as [-> | ->]; done).
  simpl. rewrite Hpatch.
  destruct reply as [e | u]; simpl; repeat split; done.
Qed.
End RegistrationFlow.

(** In the reference directory the write lands: afterwards the application
    holds what it had plus the management entry, and every other path is
    as before. *)
Lemma addSentinelPermissions_in_directory (objectId : string)
    (app : Application) (dir : gmap string Application) :
  dir !! ("/applications/" +:+ objectId) = Some app ->
  let o := run directory_handler (addSentinelPermissions objectId) dir in
  result o = inr true /\
  (app_requiredResourceAccess
     <$> world o !! ("/applications/" +:+ objectId))
    = Some (Defined (arr_or_empty (app_requiredResourceAccess app)
                     ++ [ managementPermissions ])) /\
  forall other : string,
    other <> "/applications/" +:+ objectId ->
    world o !! other = dir !! other.
Proof.
  intros Hdir o. subst o. unfold addSentinelPermissions.
  rewrite run_addApiPermissions. simpl. rewrite Hdir. simpl.
  rewrite Hdir. simpl. split; [done |]. split.
  - by rewrite lookup_insert_eq.
  - intros other Hother. by rewrite lookup_insert_ne.
Qed.

Lemma addSentinelPermissions_appends_witness :
  directory_handler _ (ApiGet ("/applications/" +:+ "object-0"))
    sample_directory = (inr sample_app, sample_directory) /\
  exists written : list RequiredResourceAccess,
    trace (run directory_handler (addSentinelPermissions "object-0")
             sample_directory)
      = [ Ev (ApiGet "/applications/object-0");
          Ev (ApiPatch "/applications/object-0"
                {| patch_requiredResourceAccess := written |}) ] /\
    written = [ graphUserRead; managementPermissions ].
Proof.
  assert (directory_handler _ (ApiGet ("/applications/" +:+ "object-0"))
            sample_directory = (inr sample_app, sample_directory)) as Hget
    by (vm_compute; reflexivity).
  split; [exact Hget |].
  destruct (addSentinelPermissions_appends directory_handler "object-0"
              sample_app sample_directory sample_directory Hget)
    as (written & Htrace & Hwritten & _).
  exists written. split; [exact Htrace | exact Hwritten].
Defined.

Lemma addApiPermissions_missing_field_witness :
  let o := run directory_handler
             (addApiPermissions "object-1" [ managementPermissions ])
             sample_directory in
  app_requiredResourceAccess sample_bare_app = Null /\
  trace o = [ Ev (ApiGet "/applications/object-1");
              Ev (ApiPatch "/applications/object-1"
                    {| patch_requiredResourceAccess :=
                         [ managementPermissions ] |}) ] /\
  result o = inr true.
Proof.
  intros o. split; [reflexivity |].
  pose proof (addApiPermissions_missing_field directory_handler "object-1"
                [ managementPermissions ] sample_bare_app (inr tt)
                sample_directory sample_directory
                (<[ "/applications/object-1" :=
                      {| app_id := "object-1"; app_appId := "client-1";
                         app_displayName := "Bare";
                         app_requiredResourceAccess :=
                           Defined [ managementPermissions ] |} ]>
                   sample_directory)
                ltac:(vm_compute; reflexivity)
                (or_intror eq_refl)
                ltac:(vm_compute; reflexivity)) as (Htrace & _ & _ & Hok).
  split; [exact Htrace | exact (Hok eq_refl)].
Defined.

(* ===================================================================== *)
(** * Routes *)
(* ===================================================================== *)

Lemma is_delete_registerApplication (appName : string)
    (redirectUris : option (list string)) :
  all_calls (fun ev => is_delete ev = false)
            (registerApplication appName redirectUris).
Proof.
  unfold registerApplication.
  apply all_calls_try_catch; [| intros e; constructor].
  apply all_calls_bind; [by apply all_calls_await | intros a; constructor].
Qed.

Lemma is_delete_addApiPermissions (appObjectId : string)
    (permissions : list RequiredResourceAccess) :
  all_calls (fun ev => is_delete ev = false)
            (addApiPermissions appObjectId permissions).
Proof.
  unfold addApiPermissions.
  apply all_calls_try_catch; [| intros e; constructor].
  apply all_calls_bind; [by apply all_calls_await |]. intros app.
  apply all_calls_bind; [by apply all_calls_await | intros u; constructor].
Qed.

Section RegisterRoute.
Context {W : Type} (h : Handler GraphE W).

(** C8. On [POST /register-app], when [registerApplication] returns an
    application and the following [addSentinelPermissions] fails with
    [e], the route answers status 500 with a body [{error: string}]
    (the client message of [e]); the calls of the run are those of the
    registration followed by those of the failed permission step, none of
    them a DELETE, and the directory is left as the failed step left it. *)
Theorem register_app_no_rollback (req_body : RegisterAppBody)
    (app : Application) (e : JsError) (w : W) :
  let o1 := run h (registerApplication
                     (str_or (appName req_body) DEFAULT_APP_NAME)
                     (Some (default [] (req_redirectUris req_body)))) w in
  result o1 = inr app ->
  let o2 := run h (addSentinelPermissions (app_id app)) (world o1) in
  result o2 = inl e ->
  let o := run h (post_register_app req_body) w in
  result o = inr (MkResponse 500 (ErrorBody (clientMessage e))) /\
  (exists resp, result o = inr resp /\ status resp = 500 /\
                is_error_body (body resp)) /\
  trace o = trace o1 ++ trace o2 /\
  world o = world o2 /\
  Forall (fun ev => is_delete ev = false) (trace o).
Proof.
  intros o1 Hreg o2 Hperm o.
  assert (result o = inr (MkResponse 500 (ErrorBody (clientMessage e))) /\
          trace o = trace o1 ++ trace o2 /\ world o = world o2)
    as (Hres & Htrace & Hworld).
  { subst o. unfold post_register_app.
    rewrite (run_try_catch_err _ _ _ _ e).
    - rewrite (run_bind_ok _ _ _ _ app Hreg). fold o1.
      rewrite (run_bind_err _ _ _ _ e Hperm). fold o2. simpl.
      by rewrite app_nil_r.
    - rewrite (run_bind_ok _ _ _ _ app Hreg). fold o1.
      by rewrite (run_bind_err _ _ _ _ e Hperm). }
  split; [done |]. split.
  - eexists. split; [exact Hres |]. split; [done |]. by eexists.
  - split; [done |]. split; [done |].
    rewrite Htrace. apply Forall_app. split.
    + apply all_calls_run, is_delete_registerApplication.
    + apply all_calls_run, is_delete_addApiPermissions.
Qed.
End RegisterRoute.

Lemma register_app_no_rollback_witness :
  let o := run forgetful_directory
             (post_register_app {| appName := None;
                                   req_redirectUris := None |})
             (∅ : gmap string Application) in
  result o = inr (MkResponse 500 (ErrorBody "Request_ResourceNotFound")) /\
  Forall (fun ev => is_delete ev = false) (trace o).
Proof.
  intros o.
  pose (app := {| app_id := "object-0"; app_appId := "client-0";
                  app_displayName := DEFAULT_APP_NAME;
                  app_requiredResourceAccess := Defined [ graphUserRead ] |}).
  pose proof (register_app_no_rollback forgetful_directory
                {| appName := None; req_redirectUris := None |}
                app NotFound (∅ : gmap string Application)) as Hroute.
  cbv zeta in Hroute.
  destruct Hroute as (Hres & _ & _ & _ & Hnodel).
  - vm_compute. reflexivity.
  - vm_compute. reflexivity.
  - split; [exact Hres | exact Hnodel].
Defined.

Lemma truthy_str_carries (detail : option PurgeResultDetail) :
  truthy_str (opt_error detail) = true <-> carries_error detail.
Proof.
  unfold carries_error. split.
  - destruct detail as [d |]; simpl; [| done].
    destruct (error d) as [msg |] eqn:Herr; simpl; [| done].
    intros Htruthy. exists d, msg. repeat split; [done |].
    intros ->. done.
  - intros (d & msg & -> & Herr & Hne). simpl. rewrite Herr.
    by destruct msg.
Qed.

Section PurgeRoute.
Context {E : Type -> Type} {W : Type} (h : Handler E W).

(** C2. Whenever [purgeSentinel] returns a PurgeResult, [DELETE /purge]
    answers with that PurgeResult as its body; the status is 207 exactly
    when [queryCleanup] or [huntCleanup] carries an error, and 200 exactly
    when neither does. *)
Theorem delete_purge_status (purgeSentinel : Prog E PurgeResult)
    (purged : PurgeResult) (w : W) :
  result (run h purgeSentinel w) = inr purged ->
  exists resp : Response PurgeResult,
    result (run h (delete_purge purgeSentinel) w) = inr resp /\
    body resp = Json purged /\
    (status resp = 207 <->
       carries_error (queryCleanup purged) \/
       carries_error (huntCleanup purged)) /\
    (status resp = 200 <->
       ~ (carries_error (queryCleanup purged) \/
          carries_error (huntCleanup purged))).
Proof.
  intros Hpurged. unfold delete_purge.
  setoid_rewrite <- truthy_str_carries.
  destruct (truthy_str (opt_error (queryCleanup purged))
            || truthy_str (opt_error (huntCleanup purged))) eqn:Hany.
  - exists (MkResponse 207 (Json purged)). split.
    + rewrite (run_try_catch_ok _ _ _ _ (MkResponse 207 (Json purged)));
        [done |].
      rewrite (run_bind_ok _ _ _ _ purged Hpurged). by rewrite Hany.
    + apply orb_true_iff in Hany. simpl. split; [done |]. split.
      * done.
      * split; [done | intros Hnone; by destruct Hnone].
  - exists (MkResponse 200 (Json purged)). split.
    + rewrite (run_try_catch_ok _ _ _ _ (MkResponse 200 (Json purged)));
        [done |].
      rewrite (run_bind_ok _ _ _ _ purged Hpurged). by rewrite Hany.
    + apply orb_false_iff in Hany. destruct Hany as [Hq Hh]. simpl.
      split; [done |]. split.
      * split; [done |]. intros [Hc | Hc]; congruence.
      * split; [| done]. intros _ [Hc | Hc]; congruence.
Qed.
End PurgeRoute.

Lemma delete_purge_status_witness :
  exists resp : Response PurgeResult,
    result (run no_calls (delete_purge (Ret sample_partial_purge)) tt)
      = inr resp /\
    body resp = Json sample_partial_purge /\
    status resp = 207.
Proof.
  destruct (delete_purge_status no_calls (Ret sample_partial_purge)
              sample_partial_purge tt eq_refl)
    as (resp & Hres & Hbody & H207 & _).
  exists resp. split; [exact Hres |]. split; [exact Hbody |].
  apply H207. left. exists {| message := None;
                              error := Some "Failed to delete queries" |}.
  exists "Failed to delete queries". repeat split. discriminate.
Defined.

(** An aggregate whose [error] is the empty string is falsy for the route
    and counts as carrying no error. *)
Example delete_purge_empty_description :
  result (run no_calls
            (delete_purge
               (Ret {| queryCleanup := Some {| message := None;
                                               error := Some "" |};
                       huntCleanup := None |})) tt)
  = inr (MkResponse 200
           (Json {| queryCleanup := Some {| message := None;
                                            error := Some "" |};
                    huntCleanup := None |})).
Proof. reflexivity. Qed.

Section QueryRoute.
Context {E : Type -> Type} {W : Type} (h : Handler E W).

(** Whatever the imported [createQueryFromInput] does, the route answers
    201 with its result or 500 with an error body; it has no other
    status. *)
Lemma post_hunting_queries_responses
    (createQueryFromInput : QueryInput -> Prog E SavedSearch)
    (req_body : QueryInput) (w : W) :
  let o := run h (post_hunting_queries createQueryFromInput req_body) w in
  match result (run h (createQueryFromInput req_body) w) with
  | inr created => result o = inr (MkResponse 201 (Json created))
  | inl e => result o = inr (MkResponse 500 (ErrorBody (clientMessage e)))
  end /\
  trace o = trace (run h (createQueryFromInput req_body) w) /\
  world o = world (run h (createQueryFromInput req_body) w).
Proof.
  intros o. subst o. unfold post_hunting_queries.
  destruct (result (run h (createQueryFromInput req_body) w))
    as [e | created] eqn:Hres.
  - rewrite (run_try_catch_err _ _ _ _ e);
      rewrite (run_bind_err _ _ _ _ e Hres); [| done].
    simpl. by rewrite app_nil_r.
  - rewrite (run_try_catch_ok _ _ _ _ (MkResponse 201 (Json created)));
      rewrite (run_bind_ok _ _ _ _ created Hres); [| done].
    simpl. by rewrite app_nil_r.
Qed.

(** The bulk route passes the result of [createHuntWithQuery] on with 201
    and answers 500 with the client message of whatever it throws. *)
Lemma post_bulk_create_hunt_responses
    (createHuntWithQuery : QueryInput -> Prog E Relation)
    (req_body : QueryInput) (w : W) :
  let o := run h (post_bulk_create_hunt createHuntWithQuery req_body) w in
  match result (run h (createHuntWithQuery req_body) w) with
  | inr relation => result o = inr (MkResponse 201 (Json relation))
  | inl e => result o = inr (MkResponse 500 (ErrorBody (clientMessage e)))
  end /\
  trace o = trace (run h (createHuntWithQuery req_body) w) /\
  world o = world (run h (createHuntWithQuery req_body) w).
Proof.
  intros o. subst o. unfold post_bulk_create_hunt.
  destruct (result (run h (createHuntWithQuery req_body) w))
    as [e | relation] eqn:Hres.
  - rewrite (run_try_catch_err _ _ _ _ e);
      rewrite (run_bind_err _ _ _ _ e Hres); [| done].
    simpl. by rewrite app_nil_r.
  - rewrite (run_try_catch_ok _ _ _ _ (MkResponse 201 (Json relation)));
      rewrite (run_bind_ok _ _ _ _ relation Hres); [| done].
    simpl. by rewrite app_nil_r.
Qed.
End QueryRoute.

Section InputValidation.
Context (cv : Conventions) {W : Type} (h : Handler SentinelE W).

(** Without [name] or without [query], [createQueryFromInput] throws a
    ValidationError and performs no call at all. *)
Lemma createQueryFromInput_validates (input : QueryInput) (w : W) :
  qi_name input = None \/ qi_query input = None ->
  run h (createQueryFromInput cv input) w =
  MkOutcome (inl (ValidationError "name and query are required")) w [].
Proof.
  unfold createQueryFromInput.
  intros [-> | ->]; [done |]. by destruct (qi_name input).
Qed.

(** The route turns that ValidationError into status 500. *)
Lemma post_hunting_queries_invalid (req_body : QueryInput) (w : W) :
  qi_name req_body = None \/ qi_query req_body = None ->
  run h (post_hunting_queries (createQueryFromInput cv) req_body) w =
  MkOutcome (inr (MkResponse 500 (ErrorBody "name and query are required")))
            w [].
Proof.
  intros Hmissing.
  pose proof (post_hunting_queries_responses h (createQueryFromInput cv)
                req_body w) as Hroute.
  cbv zeta in Hroute.
  rewrite (createQueryFromInput_validates _ _ Hmissing) in Hroute.
  simpl in Hroute. destruct Hroute as (Hres & Htrace & Hworld).
  destruct (run h _ w) as [r w' t]. simpl in *. by subst.
Qed.
End InputValidation.

(** C4. For a body without [name], [createQueryFromInput] fails with a
    ValidationError before any remote call and the route answers with a
    body [{error: string}]; the status of that answer, however, is 500 and
    not the 400 that the API description gives for invalid input. *)
Theorem post_hunting_queries_missing_name_is_500 (cv : Conventions)
    {W : Type} (h : Handler SentinelE W) (w : W) :
  let o := run h (post_hunting_queries (createQueryFromInput cv)
                    sample_missing_name) w in
  trace o = [] /\
  world o = w /\
  exists resp : Response SavedSearch,
    result o = inr resp /\
    is_error_body (body resp) /\
    status resp = 500 /\
    status resp <> 400.
Proof.
  intros o. subst o.
  rewrite (post_hunting_queries_invalid cv h sample_missing_name w)
    by (left; reflexivity).
  simpl. split; [done |]. split; [done |].
  eexists. split; [reflexivity |]. simpl.
  split; [by eexists |]. split; done.
Qed.

(* ===================================================================== *)
(** * Orchestration *)
(* ===================================================================== *)

Section WorldLaws.
Context {E : Type -> Type} {W : Type} (h : Handler E W).

(** A relation between worlds that every permitted call respects is
    respected by every run that only issues permitted calls. *)
Lemma all_calls_world {A} (P : Event E -> Prop) (R : W -> W -> Prop)
    (p : Prog E A) (w : W) :
  (forall w0, R w0 w0) ->
  (forall w0 w1 w2, R w0 w1 -> R w1 w2 -> R w0 w2) ->
  (forall X (ev : E X) w0, P (Ev ev) -> R w0 (h X ev w0).2) ->
  all_calls P p -> R w (world (run h p w)).
Proof.
  intros Hrefl Htrans Hstep Hp. revert w.
  induction Hp as [a | e | X ev k HP Hk IH]; intros w; simpl; [done.. |].
  pose proof (Hstep X ev w HP) as Hfirst.
  destruct (h X ev w) as [r w']. simpl in *.
  eapply Htrans; [exact Hfirst | apply IH].
Qed.
End WorldLaws.

Section Orchestrator.
Context (cv : Conventions).


Lemma quiet_createSentinelHunt (name description : option string) :
  all_calls quiet (createSentinelHunt cv name description).
Proof.
  unfold createSentinelHunt. destruct name; constructor.
  - done.
  - intros [e | resourceName]; simpl; [constructor |].
    by apply all_calls_await.
Qed.

Context {W : Type} (h : Handler SentinelE W).


(** The run of [createHuntWithQuery] when the Hunt step fails. *)
Lemma run_createHuntWithQuery_hunt_fails (payload : QueryInput)
    (savedSearch : SavedSearch) (e : JsError) (w : W) :
  is_Some (qi_name payload) ->
  is_Some (qi_query payload) ->
  is_Some (huntName payload) ->
  let o1 := run h (createQueryFromInput cv payload) w in
  result o1 = inr savedSearch ->
  let o2 := run h (createSentinelHunt cv (huntName payload)
                     (huntDescription payload)) (world o1) in
  result o2 = inl e ->
  run h (createHuntWithQuery cv payload) w =
  MkOutcome (inl e) (world o2) (trace o1 ++ trace o2).
Proof.
  intros [n Hn] [q Hq] [hn Hh] o1 Hss o2 Hhunt.
  unfold createHuntWithQuery. rewrite Hn, Hq, Hh. cbv iota.
  rewrite (run_bind_ok _ _ _ _ savedSearch Hss). fold o1.
  rewrite <- Hh. by rewrite (run_bind_err _ _ _ _ e Hhunt).
Qed.

End Orchestrator.

Section OrphanInWorkspace.
Context (cv : Conventions) (rm : Remote).

(** Without a delete call, what the reference workspace holds stays. *)
Lemma created_grows {A} (p : Prog SentinelE A) (w : Workspace) :
  all_calls (fun ev => is_sentinel_delete ev = false) p ->
  forall r : Stored,
    r ∈ created w -> r ∈ created (world (run (workspace_handler rm) p w)).
Proof.
  intros Hp.
  apply (all_calls_world (workspace_handler rm)
           (fun ev => is_sentinel_delete ev = false)
           (fun w0 w1 => forall r, r ∈ created w0 -> r ∈ created w1));
    [auto | auto | | done].
  intros X ev w0 Hev r Hr. unfold workspace_handler.
  destruct (rejects rm X ev w0); [done |].
  destruct ev; simpl in *; try done;
    apply elem_of_app; by left.
Qed.

(** A saved search that [createQueryFromInput] returned is stored. *)
Lemma createQueryFromInput_stored (input : QueryInput)
    (savedSearch : SavedSearch) (w : Workspace) :
  let o := run (workspace_handler rm) (createQueryFromInput cv input) w in
  result o = inr savedSearch ->
  StoredQuery savedSearch ∈ created (world o).
Proof.
  intros o. subst o. unfold createQueryFromInput.
  destruct (qi_name input), (qi_query input); simpl; try done.
  destruct (workspace_handler rm _ NewResourceName w)
    as [[e1 | n1] w1]; simpl; [done |].
  destruct (workspace_handler rm _ (CreateSavedSearch _ _) w1)
    as [[e2 | stored] w2] eqn:Hcreate; simpl; [done |].
  intros [= <-]. unfold workspace_handler in Hcreate.
  destruct (rejects rm _ _ w1); [done |].
  simpl in Hcreate. injection Hcreate as <- <-. simpl.
  apply elem_of_app. right. by apply list_elem_of_singleton.
Qed.

(** In the reference workspace, after a bulk run whose Hunt step failed,
    the saved search of the first step is still stored, as a lookup would
    show, and no relation was added. *)
Lemma createHuntWithQuery_orphan_stays (payload : QueryInput)
    (savedSearch : SavedSearch) (e : JsError) (w : Workspace) :
  is_Some (qi_name payload) ->
  is_Some (qi_query payload) ->
  is_Some (huntName payload) ->
  let o1 := run (workspace_handler rm) (createQueryFromInput cv payload) w in
  result o1 = inr savedSearch ->
  let o2 := run (workspace_handler rm)
              (createSentinelHunt cv (huntName payload)
                 (huntDescription payload)) (world o1) in
  result o2 = inl e ->
  let o := run (workspace_handler rm) (createHuntWithQuery cv payload) w in
  StoredQuery savedSearch ∈ created (world o).
Proof.
  intros Hname Hquery Hhunt_name o1 Hss o2 Hhunt o. subst o.
  rewrite (run_createHuntWithQuery_hunt_fails cv (workspace_handler rm)
             payload savedSearch e w Hname Hquery Hhunt_name Hss Hhunt).
  simpl. apply created_grows.
  - eapply (all_calls_impl quiet); [| apply quiet_createSentinelHunt].
    by intros ev [_ ?].
  - by apply createQueryFromInput_stored.
Qed.
End OrphanInWorkspace.

(* ===================================================================== *)
(** * Attribution *)
(* ===================================================================== *)

Section Attribution.
Context (cv : Conventions).

Lemma attribution_tag_stamped (ts : list Tag) :
  attribution_tag cv ∈ stamp_tags cv ts.
Proof.
  unfold stamp_tags. apply elem_of_app. right.
  by apply list_elem_of_singleton.
Qed.

Lemma label_stamped (ls : list string) :
  ATTRIBUTION_LABEL cv ∈ stamp_labels cv ls.
Proof.
  unfold stamp_labels. apply elem_of_app. right.
  by apply list_elem_of_singleton.
Qed.

Lemma stamped_createQueryFromInput (input : QueryInput) :
  all_calls (stamped cv) (createQueryFromInput cv input).
Proof.
  unfold createQueryFromInput.
  destruct (qi_name input), (qi_query input); try constructor.
  - done.
  - intros [e | resourceName]; simpl; [constructor |].
    apply all_calls_await. simpl. apply attribution_tag_stamped.
Qed.

Lemma stamped_createQueryFromFile (path : string) :
  all_calls (stamped cv) (createQueryFromFile cv path).
Proof.
  unfold createQueryFromFile.
  apply all_calls_bind; [by apply all_calls_await |]. intros text.
  destruct (parse_kql_file cv text); [| constructor].
  apply stamped_createQueryFromInput.
Qed.

Lemma stamped_createSentinelHunt (name description : option string) :
  all_calls (stamped cv) (createSentinelHunt cv name description).
Proof.
  unfold createSentinelHunt. destruct name; constructor.
  - done.
  - intros [e | resourceName]; simpl; [constructor |].
    apply all_calls_await. simpl. apply label_stamped.
Qed.

Lemma stamped_linkQueryToHunt (huntId queryResourceId : option string) :
  all_calls (stamped cv) (linkQueryToHunt cv huntId queryResourceId).
Proof.
  unfold linkQueryToHunt.
  destruct huntId, queryResourceId; try constructor.
  destruct (well_formed_query_id cv _); constructor.
  - done.
  - intros [e | relationName]; simpl; [constructor |].
    apply all_calls_await. simpl. apply label_stamped.
Qed.

Lemma stamped_createHuntWithQuery (payload : QueryInput) :
  all_calls (stamped cv) (createHuntWithQuery cv payload).
Proof.
  unfold createHuntWithQuery.
  destruct (qi_name payload) eqn:Hn, (qi_query payload) eqn:Hq,
    (huntName payload) eqn:Hh; try constructor.
  apply all_calls_bind; [apply stamped_createQueryFromInput |].
  intros savedSearch.
  apply all_calls_bind; [apply stamped_createSentinelHunt |].
  intros hunt. apply stamped_linkQueryToHunt.
Qed.

(** Every call of every creation path is stamped, whoever answers. *)
Lemma creation_paths_stamped {W : Type} (h : Handler SentinelE W)
    (p : CreationPath) (w : W) :
  Forall (stamped cv) (run_path cv h p w).2.
Proof.
  destruct p; unfold run_path, effects; cbn [snd]; apply all_calls_run.
  - apply stamped_createQueryFromInput.
  - apply stamped_createQueryFromFile.
  - apply stamped_createSentinelHunt.
  - apply stamped_linkQueryToHunt.
  - apply stamped_createHuntWithQuery.
Qed.

Lemma label_iff_owned_store (r : Stored) (w : Workspace) :
  carries_label cv r -> label_iff_owned cv w -> label_iff_owned cv (store r w).
Proof.
  intros Hr [Hmine Hforeign]. split; simpl; [| done].
  apply Forall_app. split; [done |]. by constructor.
Qed.

Lemma label_iff_owned_keeps (target : Stored -> bool) (w : Workspace) :
  label_iff_owned cv w -> label_iff_owned cv (keeps target w).
Proof.
  intros [Hmine Hforeign]. rewrite Forall_forall in Hmine, Hforeign.
  split; simpl; apply Forall_forall; intros r Hr;
    apply list_elem_of_filter in Hr as [_ Hr]; auto.
Qed.

(** One stamped call answered by the reference workspace keeps ownership
    by label. *)
Lemma label_iff_owned_step (rm : Remote) {X} (ev : SentinelE X)
    (w : Workspace) :
  stamped cv (Ev ev) -> label_iff_owned cv w ->
  label_iff_owned cv (workspace_handler rm X ev w).2.
Proof.
  intros Hev Hw. unfold workspace_handler.
  destruct (rejects rm X ev w); [done |].
  destruct ev; simpl in *;
    first [ by apply label_iff_owned_store
          | by apply label_iff_owned_keeps
          | done ].
Qed.

Lemma label_iff_owned_run (rm : Remote) {A} (p : Prog SentinelE A)
    (w : Workspace) :
  all_calls (stamped cv) p -> label_iff_owned cv w ->
  label_iff_owned cv (world (run (workspace_handler rm) p w)).
Proof.
  intros Hp.
  apply (all_calls_world (workspace_handler rm) (stamped cv)
           (fun w0 w1 => label_iff_owned cv w0 -> label_iff_owned cv w1));
    [tauto | tauto | | done].
  intros X ev w0 Hev. by apply label_iff_owned_step.
Qed.

(** C5. Every creation call issued by any creation path ([createFromInput],
    [createFromFile], [createHunt], [linkQueryToHunt], the bulk
    orchestration) carries the Attribution Label in the tag set or label set
    of its payload.  Hence, in a workspace in which exactly the resources
    created by this integration carry the label, running any creation path
    leaves a workspace in which again a resource carries the label if and
    only if this integration created it. *)
Theorem creation_paths_stamp_label (p : CreationPath) :
  (forall {W : Type} (h : Handler SentinelE W) (w : W),
      Forall (stamped cv) (run_path cv h p w).2) /\
  (forall (rm : Remote) (w : Workspace),
      label_iff_owned cv w ->
      let w' := (run_path cv (workspace_handler rm) p w).1 in
      label_iff_owned cv w' /\
      forall r : Stored,
        r ∈ created w' ++ foreign w' ->
        (carries_label cv r <-> r ∈ created w')).
Proof.
  split; [intros W h w; apply creation_paths_stamped |].
  intros rm w Hw w'.
  assert (label_iff_owned cv w') as Hw'.
  { subst w'. destruct p; unfold run_path, effects; cbn [fst];
      apply label_iff_owned_run; try done.
    - apply stamped_createQueryFromInput.
    - apply stamped_createQueryFromFile.
    - apply stamped_createSentinelHunt.
    - apply stamped_linkQueryToHunt.
    - apply stamped_createHuntWithQuery. }
  split; [done |].
  destruct Hw' as [Hmine Hforeign].
  rewrite Forall_forall in Hmine, Hforeign.
  intros r Hr. split; [| by apply Hmine].
  intros Hlabel. apply elem_of_app in Hr as [Hr | Hr]; [done |].
  by destruct (Hforeign r Hr).
Qed.
End Attribution.


Lemma sample_workspace_owned :
  label_iff_owned sample_conventions sample_workspace.
Proof.
  split; [constructor |]. constructor; [| constructor].
  simpl. intros Hin. apply list_elem_of_singleton in Hin. discriminate.
Qed.

Lemma creation_paths_stamp_label_witness :
  let w' := (run_path sample_conventions (workspace_handler sample_remote)
               (Bulk sample_bulk) sample_workspace).1 in
  label_iff_owned sample_conventions sample_workspace /\
  label_iff_owned sample_conventions w' /\
  length (created w') = 3%nat.
Proof.
  intros w'. split; [exact sample_workspace_owned |].
  destruct (creation_paths_stamp_label sample_conventions (Bulk sample_bulk))
    as [_ Hinv].
  destruct (Hinv sample_remote sample_workspace sample_workspace_owned)
    as [Hw' _].
  split; [exact Hw' |]. vm_compute. reflexivity.
Defined.

(* ===================================================================== *)
(** * Upload *)
(* ===================================================================== *)

Section UploadRoute.
Context {E : Type -> Type} {S : Type} (hE : Handler E (FileSystem * S)).
Context (createQueryFromFile : string -> Prog (FsE +' E) SavedSearch).

(** The cleanup of the [catch] block, run in a world [w]: whether or not
    the unlink succeeds, the block goes on to the error response. *)
Lemma run_upload_cleanup (file : UploadedFile) (error : JsError)
    (w : FileSystem * S) :
  file_path file <> "" ->
  let o := run (upload_handler hE)
             (bind
                (if negb (String.eqb (file_path file) "") then
                   bind (await (inlE (ExistsSync (file_path file))))
                     (fun present : bool =>
                        if present then
                          try_catch
                            (await (inlE (UnlinkSync (file_path file))))
                            (fun cleanupError => Ret tt)
                        else Ret tt)
                 else Ret tt)
                (fun _ => Ret (sendErrorResponse (B := SavedSearch) error 500)))
             w in
  result o = inr (sendErrorResponse error 500) /\
  world o = (without (file_path file) w.1, w.2).
Proof.
  intros Hpath o. subst o.
  apply String.eqb_neq in Hpath. rewrite Hpath. simpl.
  destruct w as [fs s]. unfold without. simpl.
  destruct (bool_decide (file_path file ∈ existing fs)) eqn:Hin; simpl.
  - rewrite Hin.
    destruct (bool_decide (file_path file ∈ undeletable fs)); simpl; done.
  - split; [done |]. f_equal.
    destruct (bool_decide (file_path file ∈ undeletable fs)); [done |].
    destruct fs as [files locked]. simpl in *. f_equal.
    apply bool_decide_eq_false in Hin. symmetry.
    apply difference_disjoint_L. by apply disjoint_singleton_r.
Qed.

(** The upload route on a staged file, by the outcome [o1] of the
    query-creation call. *)
Lemma run_upload_route (file : UploadedFile) (w : FileSystem * S) :
  file_path file <> "" ->
  let o1 := run (upload_handler hE) (createQueryFromFile (file_path file)) w in
  let o := run (upload_handler hE)
             (post_hunting_queries_upload createQueryFromFile (Some file)) w in
  world o = (without (file_path file) (world o1).1, (world o1).2) /\
  match result o1 with
  | inr created =>
      if bool_decide (file_path file ∈ existing (world o1).1)
      then if bool_decide (file_path file ∈ undeletable (world o1).1)
           then result o = inr (sendErrorResponse (EPERM (file_path file)) 500)
           else result o = inr (MkResponse 201 (Json created))
      else result o = inr (sendErrorResponse (ENOENT (file_path file)) 500)
  | inl e => result o = inr (sendErrorResponse e 500)
  end.
Proof.
  intros Hpath o1 o. subst o. unfold post_hunting_queries_upload.
  destruct (result o1) as [e | created] eqn:Ho1.
  { rewrite (run_try_catch_err _ _ _ _ e);
      rewrite (run_bind_err _ _ _ _ e Ho1); [| done].
    fold o1. rewrite result_prepend, world_prepend.
    destruct (run_upload_cleanup file e (world o1) Hpath) as [Hr Hw].
    split; [exact Hw | exact Hr]. }
  set (unlink := bind (await (inlE (F := E) (UnlinkSync (file_path file))))
                   (fun _ => Ret (MkResponse 201 (Json created)))).
  assert (forall err,
             result (run (upload_handler hE) unlink (world o1)) = inl err ->
             world (run (upload_handler hE) unlink (world o1)) = world o1 ->
             world (run (upload_handler hE)
                      (post_hunting_queries_upload createQueryFromFile
                         (Some file)) w)
               = (without (file_path file) (world o1).1, (world o1).2) /\
             result (run (upload_handler hE)
                       (post_hunting_queries_upload createQueryFromFile
                          (Some file)) w)
               = inr (sendErrorResponse err 500)) as Hfailed.
  { intros err Hunlink Hsame. unfold post_hunting_queries_upload.
    rewrite (run_try_catch_err _ _ _ _ err);
      rewrite (run_bind_ok _ _ _ _ created Ho1); fold o1; fold unlink;
      [| rewrite result_prepend; exact Hunlink ].
    rewrite !result_prepend, !world_prepend, Hsame.
    destruct (run_upload_cleanup file err (world o1) Hpath) as [Hr Hw].
    split; [exact Hw | exact Hr]. }
  unfold post_hunting_queries_upload in Hfailed.
  destruct (bool_decide (file_path file ∈ existing (world o1).1)) eqn:Hin;
    [destruct (bool_decide (file_path file ∈ undeletable (world o1).1))
       eqn:Hlocked |].
  - apply Hfailed; subst unlink; destruct (world o1) as [fs s]; simpl in *;
      by rewrite Hin, Hlocked.
  - rewrite (run_try_catch_ok _ _ _ _ (MkResponse 201 (Json created)));
      rewrite (run_bind_ok _ _ _ _ created Ho1); fold o1; unfold without;
      destruct (world o1) as [fs s]; simpl in *; rewrite Hin, Hlocked; done.
  - apply Hfailed; subst unlink; destruct (world o1) as [fs s]; simpl in *;
      by rewrite Hin.
Qed.

(** C6. For a request whose file was staged at a (non-empty) path that the
    process may unlink, the upload route always completes with a response
    and, when it does, the staged path no longer exists; nothing else is
    removed.  On the success path of the query-creation call the route
    unlinks the file and answers 201; on its failure path the cleanup of the
    [catch] block removes the file and the route answers 500. *)
Theorem upload_staged_file_removed (file : UploadedFile)
    (w : FileSystem * S) :
  file_path file <> "" ->
  let o1 := run (upload_handler hE) (createQueryFromFile (file_path file)) w in
  (file_path file ∉ undeletable (world o1).1) ->
  let o := run (upload_handler hE)
             (post_hunting_queries_upload createQueryFromFile (Some file)) w in
  (file_path file ∉ existing (world o).1) /\
  existing (world o).1 = existing (world o1).1 ∖ {[ file_path file ]} /\
  match result o1 with
  | inr created =>
      (file_path file ∈ existing (world o1).1) ->
      result o = inr (MkResponse 201 (Json created))
  | inl e => result o = inr (sendErrorResponse e 500)
  end /\
  exists resp : Response SavedSearch, result o = inr resp.
Proof.
  intros Hpath o1 Hfree o.
  destruct (run_upload_route file w Hpath) as [Hworld Hres].
  fold o1 o in Hworld, Hres.
  assert (bool_decide (file_path file ∈ undeletable (world o1).1) = false)
    as Hfree' by (by apply bool_decide_eq_false_2).
  clear Hfree. rename Hfree' into Hfree.
  unfold without in Hworld. rewrite Hfree in Hworld.
  assert (existing (world o).1 = existing (world o1).1 ∖ {[ file_path file ]})
    as Hfiles by (by rewrite Hworld).
  split; [| split; [exact Hfiles | split]].
  - rewrite Hfiles. apply not_elem_of_difference. right.
    by apply elem_of_singleton.
  - destruct (result o1) as [e | created]; [exact Hres |].
    intros Hin.
    by rewrite (bool_decide_eq_true_2 _ Hin), Hfree in Hres.
  - destruct (result o1) as [e | created]; [by eexists |].
    rewrite Hfree in Hres.
    destruct (bool_decide (file_path file ∈ existing (world o1).1));
      by eexists.
Qed.

(** When the staged file exists but may not be removed, both unlink
    attempts fail, the second one silently: the route answers 500 and the
    file stays. *)
Lemma upload_undeletable_file_stays (file : UploadedFile)
    (w : FileSystem * S) :
  file_path file <> "" ->
  let o1 := run (upload_handler hE) (createQueryFromFile (file_path file)) w in
  (file_path file ∈ existing (world o1).1) ->
  (file_path file ∈ undeletable (world o1).1) ->
  let o := run (upload_handler hE)
             (post_hunting_queries_upload createQueryFromFile (Some file)) w in
  world o = world o1 /\
  exists e : JsError, result o = inr (sendErrorResponse e 500).
Proof.
  intros Hpath o1 Hin Hlocked o.
  destruct (run_upload_route file w Hpath) as [Hworld Hres].
  fold o1 o in Hworld, Hres.
  unfold without in Hworld.
  rewrite (bool_decide_eq_true_2 _ Hlocked) in Hworld.
  rewrite (bool_decide_eq_true_2 _ Hin), (bool_decide_eq_true_2 _ Hlocked)
    in Hres.
  split.
  - rewrite Hworld. by destruct (world o1).
  - destruct (result o1) as [e | created]; by eexists.
Qed.
End UploadRoute.

Lemma upload_staged_file_removed_witness :
  let w := (sample_files, sample_workspace) in
  let o := run (upload_handler (with_files (workspace_handler sample_remote)))
             (post_hunting_queries_upload
                (fun path => inject_r (createQueryFromFile sample_conventions path))
                (Some sample_upload)) w in
  file_path sample_upload <> "" /\
  (file_path sample_upload ∈ existing w.1) /\
  (file_path sample_upload ∉ existing (world o).1) /\
  ("uploads/keep" ∈ existing (world o).1) /\
  exists created, result o = inr (MkResponse 201 (Json created)).
Proof.
  intros w o.
  assert (file_path sample_upload <> "") as Hpath by discriminate.
  split; [exact Hpath |].
  split; [vm_compute; reflexivity |].
  destruct (upload_staged_file_removed
              (with_files (workspace_handler sample_remote))
              (fun path => inject_r (createQueryFromFile sample_conventions path))
              sample_upload w Hpath) as (Hgone & Hfiles & _ & _).
  - vm_compute. discriminate.
  - split; [exact Hgone |]. split.
    + fold o in Hfiles. rewrite Hfiles.
      apply elem_of_difference. split.
      * vm_compute. reflexivity.
      * intros Hin. apply elem_of_singleton in Hin. discriminate.
    + eexists. vm_compute. reflexivity.
Defined.

(* ===================================================================== *)
(** * Upload filter *)
(* ===================================================================== *)

Lemma lower_upper_ascii (l : ascii) :
  lower_ascii l = l -> lower_ascii (upper_ascii l) = l.
Proof.
  destruct l as [[] [] [] [] [] [] [] []]; vm_compute; congruence.
Qed.

Lemma toLowerCase_case_variant (s lower : string) :
  ascii_toLowerCase lower = lower ->
  is_case_variant s lower = true ->
  ascii_toLowerCase s = lower.
Proof.
  revert lower. induction s as [| c s IH]; intros [| l lower]; simpl;
    try done.
  intros Hlower Hvariant. injection Hlower as Hl Hrest.
  apply andb_true_iff in Hvariant as [Hc Hs].
  rewrite (IH lower Hrest Hs). f_equal.
  apply orb_true_iff in Hc as [Hc | Hc]; apply Ascii.eqb_eq in Hc; subst c.
  - done.
  - by apply lower_upper_ascii.
Qed.

Lemma upper_ascii_is_ascii (l : ascii) :
  is_ascii_char l = true -> is_ascii_char (upper_ascii l) = true.
Proof.
  destruct l as [[] [] [] [] [] [] [] []]; vm_compute; congruence.
Qed.

(** A case variant of a string of ASCII characters is one too. *)
Lemma case_variant_is_ascii (s lower : string) :
  is_ascii lower = true ->
  is_case_variant s lower = true ->
  is_ascii s = true.
Proof.
  revert lower. induction s as [| c s IH]; intros [| l lower]; simpl;
    try done.
  intros [Hl Hlower]%andb_true_iff [Hc Hs]%andb_true_iff.
  apply andb_true_iff. split; [| by apply (IH lower)].
  apply orb_true_iff in Hc as [Hc | Hc]; apply Ascii.eqb_eq in Hc; subst c.
  - done.
  - by apply upper_ascii_is_ascii.
Qed.

Lemma lower_ascii_variant (c : ascii) :
  Ascii.eqb c (lower_ascii c) || Ascii.eqb c (upper_ascii (lower_ascii c))
  = true.
Proof.
  destruct c as [[] [] [] [] [] [] [] []]; vm_compute; reflexivity.
Qed.

(** A string is a case variant of its ASCII lowercasing. *)
Lemma case_variant_of_lower (s : string) :
  is_case_variant s (ascii_toLowerCase s) = true.
Proof.
  induction s as [| c s IH]; simpl; [done |].
  by rewrite lower_ascii_variant, IH.
Qed.

Section UploadFilter.
Context (lc : LowerCasing).

(** On a name whose extension is made of ASCII characters the filter
    decides as with the ASCII lowercasing. *)
Lemma fileFilter_ascii (file : UploadedFile) :
  is_ascii (extname (originalname file)) = true ->
  fileFilter lc file = fileFilter ascii_lowercasing file.
Proof.
  intros Hascii. unfold fileFilter.
  by rewrite (toLowerCase_ascii lc _ Hascii).
Qed.

(** C10. The upload filter accepts a file exactly when the lowercased
    extension of its original name is [.kql].  So every file whose
    extension is [.kql] up to the case of its letters ([.KQL], [.Kql], ...)
    is accepted, and a file with any other extension is rejected with an
    error, which the middleware passes on: the endpoint fails with that
    error without running the route handler, hence without any call. *)
Theorem fileFilter_accepts_kql (file : UploadedFile) :
  (fileFilter lc file = Accept <->
   toLowerCase lc (extname (originalname file)) = ".kql") /\
  (is_case_variant (extname (originalname file)) ".kql" = true ->
   fileFilter lc file = Accept) /\
  (toLowerCase lc (extname (originalname file)) <> ".kql" ->
   exists e : JsError,
     fileFilter lc file = Reject e /\
     upload_single lc (Some file) = NextError e /\
     forall (E : Type -> Type)
            (createQueryFromFile : string -> Prog (FsE +' E) SavedSearch),
       upload_endpoint lc createQueryFromFile (Some file) = Throw e).
Proof.
  assert (fileFilter lc file = Accept <->
          toLowerCase lc (extname (originalname file)) = ".kql") as Hiff.
  { unfold fileFilter, KQL_EXTENSION.
    destruct (String.eqb (toLowerCase lc (extname (originalname file)))
                ".kql") eqn:Heq; simpl.
    - apply String.eqb_eq in Heq. by split.
    - apply String.eqb_neq in Heq. split; [discriminate | done]. }
  split; [exact Hiff |]. split.
  - intros Hvariant. apply Hiff.
    rewrite (toLowerCase_ascii lc)
      by (by apply (case_variant_is_ascii _ ".kql")).
    by apply toLowerCase_case_variant.
  - intros Hother.
    destruct (fileFilter lc file) as [| e] eqn:Hfilter.
    + destruct Hother. by apply Hiff.
    + exists e. split; [done |].
      unfold upload_endpoint, upload_single. rewrite Hfilter. by split.
Qed.

(** Examples of the filter on concrete names. *)
Example fileFilter_examples :
  fileFilter lc {| originalname := "Hunt.KQL"; file_path := "uploads/a" |}
    = Accept /\
  fileFilter lc {| originalname := "dir.d/query.kQl";
                   file_path := "uploads/b" |}
    = Accept /\
  fileFilter lc {| originalname := ".kql"; file_path := "uploads/c" |}
    <> Accept /\
  fileFilter lc {| originalname := "query.kql.bak";
                   file_path := "uploads/d" |}
    <> Accept /\
  fileFilter lc {| originalname := "kql"; file_path := "uploads/e" |}
    <> Accept.
Proof.
  repeat split; rewrite fileFilter_ascii by reflexivity;
    vm_compute; (reflexivity || discriminate).
Qed.
End UploadFilter.

Lemma fileFilter_accepts_kql_witness :
  is_case_variant (extname "Heartbeat.KQL") ".kql" = true /\
  fileFilter ascii_lowercasing sample_upload = Accept /\
  toLowerCase ascii_lowercasing (extname "notes.kql.txt") <> ".kql" /\
  exists e : JsError,
    fileFilter ascii_lowercasing
      {| originalname := "notes.kql.txt"; file_path := "uploads/77" |}
    = Reject e /\
    upload_endpoint (E := SentinelE) ascii_lowercasing
      (fun path => Throw NotFound)
      (Some {| originalname := "notes.kql.txt"; file_path := "uploads/77" |})
    = Throw e.
Proof.
  split; [vm_compute; reflexivity |].
  split; [apply (fileFilter_accepts_kql ascii_lowercasing sample_upload);
          vm_compute; reflexivity |].
  assert (toLowerCase ascii_lowercasing (extname "notes.kql.txt") <> ".kql")
    as Hother by (vm_compute; discriminate).
  split; [exact Hother |].
  destruct (fileFilter_accepts_kql ascii_lowercasing
              {| originalname := "notes.kql.txt"; file_path := "uploads/77" |})
    as (_ & _ & Hreject).
  destruct (Hreject Hother) as (e & Hfilter & _ & Hendpoint).
  exists e. split; [exact Hfilter | apply Hendpoint].
Defined.

(* ===================================================================== *)
(** * Further properties of the registration flow *)
(* ===================================================================== *)

Section PermissionUpdates.
Context {W : Type} (h : Handler GraphE W).

(** X1. When the directory rejects the GET of the application,
    [addApiPermissions] fails with that very error and has issued the GET
    only: no PATCH is sent for an application that could not be read. *)
Theorem addApiPermissions_get_failure (appObjectId : string)
    (permissions : list RequiredResourceAccess) (e : JsError) (w w1 : W) :
  h _ (ApiGet ("/applications/" +:+ appObjectId)) w = (inl e, w1) ->
  run h (addApiPermissions appObjectId permissions) w =
  MkOutcome (inl e) w1 [ Ev (ApiGet ("/applications/" +:+ appObjectId)) ].
Proof.
  intros Hget. rewrite run_addApiPermissions. simpl. by rewrite Hget.
Qed.

(** X2. For any list of permissions: once the application is read,
    [addApiPermissions] issues exactly one PATCH, whose list keeps every
    existing entry at its index and continues with the permissions in the
    order given; the call returns [true] when the PATCH is accepted and
    fails with the PATCH's error otherwise.  With no permissions to add it
    still sends the PATCH, writing the existing list back. *)
Theorem addApiPermissions_appends (appObjectId : string)
    (permissions : list RequiredResourceAccess) (app : Application)
    (reply : JsError + unit) (w w1 w2 : W) :
  let path := "/applications/" +:+ appObjectId in
  let existing := arr_or_empty (app_requiredResourceAccess app) in
  let written := existing ++ permissions in
  h _ (ApiGet path) w = (inr app, w1) ->
  h _ (ApiPatch path {| patch_requiredResourceAccess := written |}) w1
    = (reply, w2) ->
  let o := run h (addApiPermissions appObjectId permissions) w in
  trace o = [ Ev (ApiGet path);
              Ev (ApiPatch path {| patch_requiredResourceAccess := written |}) ]
  /\ world o = w2
  /\ result o = match reply with
                | inl e => inl e
                | inr _ => inr true
                end
  /\ (forall (i : nat) entry,
         existing !! i = Some entry -> written !! i = Some entry)
  /\ (forall i : nat,
         written !! (length existing + i)%nat = permissions !! i)
  /\ (permissions = [] -> written = existing).
Proof.
  intros path existing written Hget Hpatch o. subst o.
  rewrite run_addApiPermissions. fold path. cbv zeta. rewrite Hget.
  fold existing. fold written. rewrite Hpatch.
  split; [by destruct reply |]. split; [by destruct reply |].
  split; [by destruct reply |]. split; [| split].
  - intros i entry Hi. by apply lookup_app_l_Some.
  - intros i. subst written. rewrite lookup_app_r by lia.
    f_equal. lia.
  - intros ->. subst written. by rewrite app_nil_r.
Qed.

(** X3. [addSentinelPermissions] does not look for the management entry
    among the existing ones: the list it writes holds that entry once more
    than the application did, so an application that already has the grant
    ends up with a duplicate. *)
Theorem addSentinelPermissions_no_dedup (objectId : string)
    (app : Application) (w w1 : W) :
  h _ (ApiGet ("/applications/" +:+ objectId)) w = (inr app, w1) ->
  exists written : list RequiredResourceAccess,
    Ev (ApiPatch ("/applications/" +:+ objectId)
          {| patch_requiredResourceAccess := written |})
      ∈ trace (run h (addSentinelPermissions objectId) w) /\
    occurrences managementPermissions written =
      S (occurrences managementPermissions
           (arr_or_empty (app_requiredResourceAccess app))).
Proof.
  intros Hget.
  exists (arr_or_empty (app_requiredResourceAccess app)
          ++ [ managementPermissions ]).
  split.
  - unfold addSentinelPermissions. rewrite run_addApiPermissions. simpl.
    rewrite Hget.
    destruct (h _ (ApiPatch _ _) w1) as [[e | u] w2]; simpl;
      apply list_elem_of_further, list_elem_of_here.
  - unfold occurrences. rewrite filter_app, length_app.
    rewrite filter_cons_True by done. simpl. lia.
Qed.
End PermissionUpdates.

Lemma addApiPermissions_get_failure_witness :
  run directory_handler
    (addApiPermissions "missing" [ managementPermissions ]) sample_directory
  = MkOutcome (inl NotFound) sample_directory
      [ Ev (ApiGet "/applications/missing") ].
Proof.
  apply (addApiPermissions_get_failure directory_handler "missing"
           [ managementPermissions ] NotFound sample_directory
           sample_directory).
  vm_compute. reflexivity.
Defined.

Lemma addApiPermissions_appends_witness :
  let o := run granted_directory (addApiPermissions "object-2" []) tt in
  trace o = [ Ev (ApiGet "/applications/object-2");
              Ev (ApiPatch "/applications/object-2"
                    {| patch_requiredResourceAccess :=
                         [ graphUserRead; managementPermissions ] |}) ] /\
  result o = inr true.
Proof.
  intros o.
  pose proof (addApiPermissions_appends granted_directory "object-2" []
                sample_granted_app (inr tt) tt tt tt) as Hrun.
  cbv zeta in Hrun.
  destruct Hrun as (Htrace & _ & Hres & _).
  - reflexivity.
  - reflexivity.
  - split; [exact Htrace | exact Hres].
Defined.

Lemma addSentinelPermissions_no_dedup_witness :
  exists written : list RequiredResourceAccess,
    Ev (ApiPatch "/applications/object-2"
          {| patch_requiredResourceAccess := written |})
      ∈ trace (run granted_directory (addSentinelPermissions "object-2") tt)
    /\ occurrences managementPermissions written = 2%nat.
Proof.
  destruct (addSentinelPermissions_no_dedup granted_directory "object-2"
              sample_granted_app tt tt eq_refl) as (written & Hin & Hcount).
  exists written. split; [exact Hin |].
  rewrite Hcount. vm_compute. reflexivity.
Defined.

(** X4. In the reference directory two successive [addApiPermissions]
    calls on the same application accumulate: both succeed, and the
    directory ends exactly as after one call with the two permission lists
    appended, the application holding its former entries, then the first
    list, then the second. *)
Theorem addApiPermissions_accumulates (appObjectId : string)
    (first second : list RequiredResourceAccess) (app : Application)
    (dir : gmap string Application) :
  dir !! ("/applications/" +:+ appObjectId) = Some app ->
  let o1 := run directory_handler
              (addApiPermissions appObjectId first) dir in
  let o2 := run directory_handler
              (addApiPermissions appObjectId second) (world o1) in
  let once := run directory_handler
                (addApiPermissions appObjectId (first ++ second)) dir in
  result o1 = inr true /\
  result o2 = inr true /\
  world o2 = world once /\
  app_requiredResourceAccess
    <$> world o2 !! ("/applications/" +:+ appObjectId)
  = Some (Defined (arr_or_empty (app_requiredResourceAccess app)
                   ++ first ++ second)).
Proof.
  intros Hdir o1 o2 once. subst o1 o2 once.
  rewrite !run_addApiPermissions. simpl. rewrite Hdir. simpl.
  rewrite Hdir. simpl. rewrite lookup_insert_eq. simpl.
  rewrite lookup_insert_eq. simpl.
  rewrite insert_insert_eq, <- app_assoc.
  repeat split; try done. by rewrite lookup_insert_eq.
Qed.

Lemma addApiPermissions_accumulates_witness :
  let o1 := run directory_handler
              (addSentinelPermissions "object-0") sample_directory in
  let o2 := run directory_handler
              (addSentinelPermissions "object-0") (world o1) in
  app_requiredResourceAccess <$> world o2 !! "/applications/object-0"
  = Some (Defined [ graphUserRead; managementPermissions;
                    managementPermissions ]).
Proof.
  intros o1 o2.
  pose proof (addApiPermissions_accumulates "object-0"
                [ managementPermissions ] [ managementPermissions ]
                sample_app sample_directory) as Hacc.
  cbv zeta in Hacc. destruct Hacc as (_ & _ & _ & Hstored).
  - vm_compute. reflexivity.
  - exact Hstored.
Defined.

(* ===================================================================== *)
(** * Further properties of the routes *)
(* ===================================================================== *)

Section RegisterRouteRuns.
Context {W : Type} (h : Handler GraphE W).

(** A run of [POST /register-app], by the replies of the directory. *)
Lemma run_post_register_app (req_body : RegisterAppBody) (w : W) :
  run h (post_register_app req_body) w =
  let post := ApiPost "/applications" (route_registration req_body) in
  match h _ post w with
  | (inl e, w1) => MkOutcome (inr (sendErrorResponse e 500)) w1 [ Ev post ]
  | (inr app, w1) =>
      let o2 := run h (addSentinelPermissions (app_id app)) w1 in
      MkOutcome
        (match result o2 with
         | inl e => inr (sendErrorResponse e 500)
         | inr _ =>
             inr (MkResponse 201 (Json
               {| reg_message :=
                    "Application registered and permissions added successfully";
                  reg_appId := app_appId app;
                  reg_objectId := app_id app;
                  reg_body_displayName := app_displayName app |}))
         end)
        (world o2) (Ev post :: trace o2)
  end.
Proof.
  unfold post_register_app. cbv zeta.
  pose proof (run_registerApplication h
                (str_or (appName req_body) DEFAULT_APP_NAME)
                (Some (default [] (req_redirectUris req_body))) w) as Hreg.
  fold (route_registration req_body) in Hreg.
  destruct (h _ (ApiPost "/applications" (route_registration req_body)) w)
    as [[e | app] w1] eqn:Hpost; cbn [fst snd] in Hreg.
  - rewrite (run_try_catch_err _ _ _ _ e);
      rewrite (run_bind_err _ _ _ _ e); rewrite Hreg; done.
  - set (o2 := run h (addSentinelPermissions (app_id app)) w1).
    rewrite run_try_catch, run_bind, Hreg.
    unfold seq_outcome at 1. cbn [result world trace].
    rewrite run_bind. fold o2.
    unfold seq_outcome, catch_outcome.
    destruct (result o2) as [e | ok]; cbn [result world trace run];
      by rewrite !app_nil_r.
Qed.

(** X5. Whatever the request body and whatever the directory answers,
    [POST /register-app] begins with one POST to [/applications] that
    registers the application under the name given in the body, or under
    the default name when the body has none or an empty one, with the
    redirect URIs of the body or none; it never issues a DELETE; and it
    always ends with a response, whose status is 201 or 500. *)
Theorem post_register_app_shape (req_body : RegisterAppBody) (w : W) :
  let o := run h (post_register_app req_body) w in
  (exists rest,
      trace o = Ev (ApiPost "/applications" (route_registration req_body))
                :: rest) /\
  reg_displayName (route_registration req_body) =
    match appName req_body with
    | None | Some "" => "Sentinel TH Integration App"
    | Some name => name
    end /\
  redirectUris (web (route_registration req_body)) =
    match req_redirectUris req_body with
    | None => []
    | Some uris => uris
    end /\
  Forall (fun ev => is_delete ev = false) (trace o) /\
  exists resp, result o = inr resp /\ (status resp = 201 \/ status resp = 500).
Proof.
  intros o. subst o. rewrite run_post_register_app. cbv zeta.
  split; [| split; [| split]].
  - destruct (h _ _ w) as [[e | app] w1]; by eexists.
  - unfold route_registration.
    destruct (appName req_body) as [[| c name] |]; reflexivity.
  - unfold route_registration.
    destruct (req_redirectUris req_body); reflexivity.
  - destruct (h _ _ w) as [[e | app] w1]; cbn [result trace].
    + split; [by repeat constructor |]. eexists. split; [done |]. by right.
    + split.
      * constructor; [done |].
        apply all_calls_run, is_delete_addApiPermissions.
      * destruct (result _) as [e | ok]; eexists; (split; [done |]);
          [by right | by left].
Qed.

(** X6. When the directory rejects the registration, the route answers
    500 with the client message of that error and stops there: the
    permission step is not attempted. *)
Theorem post_register_app_registration_failure (req_body : RegisterAppBody)
    (e : JsError) (w w1 : W) :
  h _ (ApiPost "/applications" (route_registration req_body)) w
    = (inl e, w1) ->
  run h (post_register_app req_body) w =
  MkOutcome (inr (MkResponse 500 (ErrorBody (clientMessage e)))) w1
            [ Ev (ApiPost "/applications" (route_registration req_body)) ].
Proof.
  intros Hpost. rewrite run_post_register_app. cbv zeta. by rewrite Hpost.
Qed.

(** X7. When the directory accepts the registration, the read and the
    PATCH of the permission step, the route answers 201 with the fixed
    message and the [appId], object id and display name of the application
    the directory returned; its calls are the POST, then the GET and the
    PATCH of [/applications/<object id>], the PATCH adding the management
    entry to what the GET returned. *)
Theorem post_register_app_success (req_body : RegisterAppBody)
    (app stored : Application) (w w1 w2 w3 : W) :
  let post := ApiPost "/applications" (route_registration req_body) in
  let get := ApiGet ("/applications/" +:+ app_id app) in
  let patch := ApiPatch ("/applications/" +:+ app_id app)
                 {| patch_requiredResourceAccess :=
                      arr_or_empty (app_requiredResourceAccess stored)
                      ++ [ managementPermissions ] |} in
  h _ post w = (inr app, w1) ->
  h _ get w1 = (inr stored, w2) ->
  h _ patch w2 = (inr tt, w3) ->
  run h (post_register_app req_body) w =
  MkOutcome
    (inr (MkResponse 201 (Json
       {| reg_message :=
            "Application registered and permissions added successfully";
          reg_appId := app_appId app;
          reg_objectId := app_id app;
          reg_body_displayName := app_displayName app |})))
    w3 [ Ev post; Ev get; Ev patch ].
Proof.
  intros post get patch Hpost Hget Hpatch.
  rewrite run_post_register_app. cbv zeta. fold post. rewrite Hpost.
  unfold addSentinelPermissions. rewrite run_addApiPermissions. cbv zeta.
  fold get. rewrite Hget. fold patch. by rewrite Hpatch.
Qed.
End RegisterRouteRuns.

Lemma post_register_app_registration_failure_witness :
  run closed_directory
    (post_register_app {| appName := Some ""; req_redirectUris := None |}) tt
  = MkOutcome (inr (MkResponse 500 (ErrorBody "AuthorizationFailed"))) tt
      [ Ev (ApiPost "/applications"
              (appRegistration "Sentinel TH Integration App" (Some []))) ].
Proof.
  apply (post_register_app_registration_failure closed_directory
           {| appName := Some ""; req_redirectUris := None |}
           Forbidden tt tt).
  reflexivity.
Defined.

Lemma post_register_app_success_witness :
  result (run granted_directory
            (post_register_app {| appName := Some "Granted";
                                  req_redirectUris := None |}) tt)
  = inr (MkResponse 201 (Json
      {| reg_message :=
           "Application registered and permissions added successfully";
         reg_appId := "client-2";
         reg_objectId := "object-2";
         reg_body_displayName := "Granted" |})).
Proof.
  pose proof (post_register_app_success granted_directory
                {| appName := Some "Granted"; req_redirectUris := None |}
                sample_granted_app sample_granted_app tt tt tt tt) as Hrun.
  cbv zeta in Hrun. rewrite Hrun; reflexivity.
Defined.

Lemma directory_post (path : string) (body : AppRegistration)
    (dir : gmap string Application) :
  directory_handler _ (ApiPost path body) dir =
  let app := {| app_id := "object-" +:+ pretty (size dir);
                app_appId := "client-" +:+ pretty (size dir);
                app_displayName := reg_displayName body;
                app_requiredResourceAccess :=
                  Defined (reg_requiredResourceAccess body) |} in
  (inr app, <[ path +:+ "/" +:+ app_id app := app ]> dir).
Proof. reflexivity. Qed.

Lemma directory_get (path : string) (dir : gmap string Application) :
  directory_handler _ (ApiGet path) dir =
  match dir !! path with
  | Some app => (inr app, dir)
  | None => (inl NotFound, dir)
  end.
Proof. reflexivity. Qed.

Lemma directory_patch (path : string) (body : ApplicationPatch)
    (dir : gmap string Application) :
  directory_handler _ (ApiPatch path body) dir =
  match dir !! path with
  | Some app =>
      (inr tt,
       <[ path := {| app_id := app_id app;
                     app_appId := app_appId app;
                     app_displayName := app_displayName app;
                     app_requiredResourceAccess :=
                       Defined (patch_requiredResourceAccess body) |} ]> dir)
  | None => (inl NotFound, dir)
  end.
Proof. reflexivity. Qed.

(** X8. Against the reference directory, which stores what it is sent,
    [POST /register-app] always answers 201 and names the object it
    created; that application then holds exactly two grants, the Graph
    [User.Read] baseline followed by the management entry, under the
    effective name of the request; no other entry of the directory
    changes. *)
Theorem post_register_app_in_directory (req_body : RegisterAppBody)
    (dir : gmap string Application) :
  let o := run directory_handler (post_register_app req_body) dir in
  let objectId := "object-" +:+ pretty (size dir) in
  result o = inr (MkResponse 201 (Json
    {| reg_message :=
         "Application registered and permissions added successfully";
       reg_appId := "client-" +:+ pretty (size dir);
       reg_objectId := objectId;
       reg_body_displayName := str_or (appName req_body) DEFAULT_APP_NAME |}))
  /\ world o !! ("/applications/" +:+ objectId) =
     Some {| app_id := objectId;
             app_appId := "client-" +:+ pretty (size dir);
             app_displayName := str_or (appName req_body) DEFAULT_APP_NAME;
             app_requiredResourceAccess :=
               Defined [ graphUserRead; managementPermissions ] |}
  /\ forall other : string,
       other <> "/applications/" +:+ objectId ->
       world o !! other = dir !! other.
Proof.
  intros o objectId. subst o.
  rewrite run_post_register_app. cbv zeta.
  rewrite directory_post. cbv zeta. cbn [app_id].
  change ("/applications" +:+ "/" +:+ "object-" +:+ pretty (size dir))
    with ("/applications/" +:+ objectId).
  unfold addSentinelPermissions. rewrite run_addApiPermissions. cbv zeta.
  cbn [app_id]. fold objectId.
  rewrite directory_get, lookup_insert_eq.
  rewrite directory_patch, lookup_insert_eq.
  cbn [result world trace app_id app_appId app_displayName
       app_requiredResourceAccess patch_requiredResourceAccess arr_or_empty
       reg_requiredResourceAccess reg_displayName route_registration
       appRegistration app].
  rewrite insert_insert_eq.
  split; [done |]. split.
  - by rewrite lookup_insert_eq.
  - intros other Hother. by rewrite lookup_insert_ne.
Qed.

(** X9. An error response carries the status it was given and a body
    [{error: message}] whose message is never empty: the message of the
    remote service when the error has a non-empty one, otherwise the
    error's own message when that is non-empty, otherwise the fixed
    sentence about an internal server error. *)
Theorem sendErrorResponse_message {B : Type} (error : JsError)
    (statusCode : Z) :
  status (sendErrorResponse (B := B) error statusCode) = statusCode /\
  exists msg : string,
    body (sendErrorResponse (B := B) error statusCode) = ErrorBody msg /\
    msg <> "" /\
    (forall remote : string,
        response_data_error_message error = Some remote -> remote <> "" ->
        msg = remote) /\
    (forall own : string,
        truthy_str (response_data_error_message error) = false ->
        err_message error = Some own -> own <> "" ->
        msg = own) /\
    (truthy_str (response_data_error_message error) = false ->
     truthy_str (err_message error) = false ->
     msg = "An internal server error occurred.").
Proof.
  split; [done |]. exists (clientMessage error). split; [done |].
  unfold clientMessage.
  destruct (response_data_error_message error) as [[| c remote] |];
    destruct (err_message error) as [[| d own] |]; simpl;
    repeat split; try done; try congruence;
    intros; simplify_eq; done.
Qed.

Lemma sendErrorResponse_message_witness :
  status (sendErrorResponse (B := unit) Forbidden 500) = 500 /\
  body (sendErrorResponse (B := unit) Forbidden 500)
    = ErrorBody "AuthorizationFailed" /\
  body (sendErrorResponse (B := unit) (ENOENT "uploads/1") 500)
    = ErrorBody "ENOENT: no such file or directory, unlink 'uploads/1'".
Proof.
  split; [reflexivity |].
  destruct (sendErrorResponse_message (B := unit) Forbidden 500)
    as (_ & msg & Hbody & _ & Hremote & _).
  destruct (sendErrorResponse_message (B := unit) (ENOENT "uploads/1") 500)
    as (_ & msg' & Hbody' & _ & _ & Hown & _).
  split.
  - rewrite Hbody. f_equal.
    apply (Hremote "AuthorizationFailed"); [reflexivity | discriminate].
  - rewrite Hbody'. f_equal.
    apply (Hown "ENOENT: no such file or directory, unlink 'uploads/1'");
      [reflexivity | reflexivity | discriminate].
Defined.

Section RelayingRoutes.
Context {E : Type -> Type} {W : Type} (h : Handler E W).

(** The common shape of the routes that await one function. *)
Lemma run_relay {A : Type} (code : Z) (p : Prog E A) (w : W) :
  run h (try_catch
           (bind p (fun a => Ret (MkResponse code (Json a))))
           (fun error => Ret (sendErrorResponse error 500))) w
  = relay code (run h p w).
Proof.
  unfold relay.
  destruct (result (run h p w)) as [e | a] eqn:Hres.
  - rewrite (run_try_catch_err _ _ _ _ e);
      rewrite (run_bind_err _ _ _ _ e Hres); [| done].
    unfold prepend. cbn [result world trace run]. by rewrite app_nil_r.
  - rewrite (run_try_catch_ok _ _ _ _ (MkResponse code (Json a)));
      rewrite (run_bind_ok _ _ _ _ a Hres); [| done].
    unfold prepend. cbn [result world trace run]. by rewrite app_nil_r.
Qed.

Lemma relay_responds {A : Type} (code : Z) (o : Outcome E W A) :
  exists resp : Response A,
    result (relay code o) = inr resp /\
    (status resp = code \/ status resp = 500).
Proof.
  unfold relay.
  destruct (result o) as [e | a]; eexists; (split; [done |]);
    [by right | by left].
Qed.

(** X10. [DELETE /purge] makes no call of its own and leaves the world as
    [purgeSentinel] left it.  When [purgeSentinel] throws, the route
    answers 500 with the client message of the error; when it returns, the
    route answers 200 or 207 with the result as body.  No error escapes
    the route. *)
Theorem delete_purge_outcomes (purgeSentinel : Prog E PurgeResult) (w : W) :
  let purge := run h purgeSentinel w in
  let o := run h (delete_purge purgeSentinel) w in
  trace o = trace purge /\
  world o = world purge /\
  match result purge with
  | inl e => result o = inr (MkResponse 500 (ErrorBody (clientMessage e)))
  | inr purged =>
      exists resp : Response PurgeResult,
        result o = inr resp /\ body resp = Json purged /\
        (status resp = 200 \/ status resp = 207)
  end.
Proof.
  intros purge o. subst o. unfold delete_purge.
  destruct (result purge) as [e | purged] eqn:Hres.
  - rewrite (run_try_catch_err _ _ _ _ e);
      rewrite (run_bind_err _ _ _ _ e Hres); [| done].
    fold purge. unfold prepend. cbn [result world trace run].
    by rewrite app_nil_r.
  - set (resp := if truthy_str (opt_error (queryCleanup purged))
                    || truthy_str (opt_error (huntCleanup purged))
                 then MkResponse 207 (Json purged)
                 else MkResponse 200 (Json purged)).
    assert (run h
              (if truthy_str (opt_error (queryCleanup purged))
                  || truthy_str (opt_error (huntCleanup purged))
               then Ret (MkResponse 207 (Json purged))
               else Ret (MkResponse 200 (Json purged)))
              (world purge) = MkOutcome (inr resp) (world purge) [])
      as Hanswer by (subst resp; by destruct (_ || _)).
    rewrite (run_try_catch_ok _ _ _ _ resp);
      rewrite (run_bind_ok _ _ _ _ purged Hres); fold purge;
      rewrite Hanswer; [| done].
    unfold prepend. cbn [result world trace]. rewrite app_nil_r.
    split; [done |]. split; [done |].
    exists resp. split; [done |]. subst resp.
    destruct (_ || _); simpl; split; auto.
Qed.

(** X11. The four creating routes, [POST /hunting-queries], [/hunts],
    [/link-query] and [/bulk-create-hunt], hand the request body to their
    function unchanged and add no call: the run is the function's run, its
    value answered with 201 and any error it throws, a validation error
    included, with 500.  So each route always responds, with 201 or
    500. *)
Theorem creating_routes_relay (w : W) :
  (forall (createQueryFromInput : QueryInput -> Prog E SavedSearch) req_body,
      run h (post_hunting_queries createQueryFromInput req_body) w
      = relay 201 (run h (createQueryFromInput req_body) w)) /\
  (forall (createSentinelHunt : HuntInput -> Prog E Hunt) req_body,
      run h (post_hunts createSentinelHunt req_body) w
      = relay 201 (run h (createSentinelHunt req_body) w)) /\
  (forall (linkQueryToHunt : LinkInput -> Prog E Relation) req_body,
      run h (post_link_query linkQueryToHunt req_body) w
      = relay 201 (run h (linkQueryToHunt req_body) w)) /\
  (forall (createHuntWithQuery : QueryInput -> Prog E Relation) req_body,
      run h (post_bulk_create_hunt createHuntWithQuery req_body) w
      = relay 201 (run h (createHuntWithQuery req_body) w)) /\
  (forall {A : Type} (o : Outcome E W A),
      trace (relay 201 o) = trace o /\ world (relay 201 o) = world o /\
      exists resp : Response A,
        result (relay 201 o) = inr resp /\
        (status resp = 201 \/ status resp = 500)).
Proof.
  repeat split; intros; try apply run_relay.
  apply relay_responds.
Qed.

(** X12. The three listing routes, [GET /app-info], [/hunting-queries] and
    [/hunts], add no call to the function they await and answer its value
    with 200 and any error with 500. *)
Theorem listing_routes_relay (w : W) :
  (forall getApplicationInfo : Prog E Application,
      run h (get_app_info getApplicationInfo) w
      = relay 200 (run h getApplicationInfo w)) /\
  (forall getHuntingQueries : Prog E (list SavedSearch),
      run h (get_hunting_queries getHuntingQueries) w
      = relay 200 (run h getHuntingQueries w)) /\
  (forall getHunts : Prog E HuntPage,
      run h (get_hunts getHunts) w = relay 200 (run h getHunts w)) /\
  (forall {A : Type} (o : Outcome E W A),
      trace (relay 200 o) = trace o /\ world (relay 200 o) = world o /\
      exists resp : Response A,
        result (relay 200 o) = inr resp /\
        (status resp = 200 \/ status resp = 500)).
Proof.
  repeat split; intros; try apply run_relay.
  apply relay_responds.
Qed.

(** X13. [POST /hunting-queries/run] with a missing or an empty [query]
    answers 400 with [{error: "Query is required"}] and calls nothing. *)
Theorem post_hunting_queries_run_requires_query {R : Type}
    (runHuntingQuery : string -> option string -> Prog E R)
    (req_body : RunInput) (w : W) :
  run_query req_body = None \/ run_query req_body = Some "" ->
  run h (post_hunting_queries_run runHuntingQuery req_body) w
  = MkOutcome (inr (MkResponse 400 (ErrorBody "Query is required"))) w [].
Proof.
  unfold post_hunting_queries_run. by intros [-> | ->].
Qed.

(** X14. With a non-empty [query] the route calls [runHuntingQuery] with
    that query and with the [timespan] of the body exactly as received
    (none when the body has none: the route applies no default of its
    own), answers its value with 200 and any error with 500. *)
Theorem post_hunting_queries_run_relays {R : Type}
    (runHuntingQuery : string -> option string -> Prog E R)
    (req_body : RunInput) (query : string) (w : W) :
  run_query req_body = Some query -> query <> "" ->
  run h (post_hunting_queries_run runHuntingQuery req_body) w
  = relay 200 (run h (runHuntingQuery query (run_timespan req_body)) w).
Proof.
  intros Hquery Hne. unfold post_hunting_queries_run. rewrite Hquery.
  destruct query as [| c query]; [done |]. apply run_relay.
Qed.
End RelayingRoutes.

Lemma post_hunting_queries_run_requires_query_witness :
  run no_calls
    (post_hunting_queries_run (fun query timespan => await NewResourceName)
       {| run_query := Some ""; run_timespan := Some "P7D" |}) tt
  = MkOutcome (inr (MkResponse 400 (ErrorBody "Query is required"))) tt [].
Proof.
  apply (post_hunting_queries_run_requires_query no_calls).
  right. reflexivity.
Defined.

Lemma post_hunting_queries_run_relays_witness :
  result (run no_calls
            (post_hunting_queries_run
               (fun query timespan => Ret (query, timespan))
               {| run_query := Some "Heartbeat | take 1";
                  run_timespan := None |}) tt)
  = inr (MkResponse 200 (Json ("Heartbeat | take 1", None))).
Proof.
  rewrite (post_hunting_queries_run_relays no_calls
             (fun query timespan => Ret (query, timespan))
             {| run_query := Some "Heartbeat | take 1";
                run_timespan := None |}
             "Heartbeat | take 1" tt eq_refl); [reflexivity | discriminate].
Defined.

(* ===================================================================== *)
(** * Further properties of the upload route *)
(* ===================================================================== *)

Section UploadEndpoint.
Context (lc : LowerCasing).
Context {E : Type -> Type} {W : Type} (h : Handler (FsE +' E) W).
Context (createQueryFromFile : string -> Prog (FsE +' E) SavedSearch).

(** X15. The upload endpoint by its three cases.  Without a file part the
    handler runs with no file and answers 400 with [{error: "No file
    uploaded"}], calling nothing.  A file whose lowercased extension is not
    [.kql] never reaches the handler: the endpoint fails with the error
    [Only .kql files are allowed] before any call, so nothing is created
    and nothing has to be cleaned up.  A file with the right extension is
    handed to the handler as it came. *)
Theorem upload_endpoint_filters (file : UploadedFile) (w : W) :
  run h (upload_endpoint lc createQueryFromFile None) w
  = MkOutcome (inr (MkResponse 400 (ErrorBody "No file uploaded"))) w [] /\
  (toLowerCase lc (extname (originalname file)) <> ".kql" ->
   run h (upload_endpoint lc createQueryFromFile (Some file)) w
   = MkOutcome
       (inl {| err_name := "Error";
               err_message := Some "Only .kql files are allowed";
               response_data_error_message := None |}) w []) /\
  (toLowerCase lc (extname (originalname file)) = ".kql" ->
   upload_endpoint lc createQueryFromFile (Some file)
   = post_hunting_queries_upload createQueryFromFile (Some file)).
Proof.
  split; [reflexivity |].
  unfold upload_endpoint, upload_single, fileFilter, KQL_EXTENSION.
  split; intros Hext.
  - apply String.eqb_neq in Hext. by rewrite Hext.
  - apply String.eqb_eq in Hext. by rewrite Hext.
Qed.
End UploadEndpoint.

Lemma upload_endpoint_filters_witness :
  run no_calls_fs
    (upload_endpoint ascii_lowercasing (fun path => Throw NotFound)
       (Some {| originalname := "report.pdf"; file_path := "uploads/1" |})) tt
  = MkOutcome
      (inl {| err_name := "Error";
              err_message := Some "Only .kql files are allowed";
              response_data_error_message := None |}) tt [] /\
  upload_endpoint (E := SentinelE) ascii_lowercasing
    (fun path => Throw NotFound) (Some sample_upload)
  = post_hunting_queries_upload (fun path => Throw NotFound)
      (Some sample_upload).
Proof.
  split.
  - apply (upload_endpoint_filters ascii_lowercasing no_calls_fs
             (fun path => Throw NotFound)
             {| originalname := "report.pdf"; file_path := "uploads/1" |} tt).
    vm_compute. discriminate.
  - apply (proj2 (proj2 (upload_endpoint_filters ascii_lowercasing
                           no_calls_fs (fun path => Throw NotFound)
                           sample_upload tt))).
    vm_compute. reflexivity.
Defined.

Section UploadEdges.
Context {E : Type -> Type} {S : Type} (hE : Handler E (FileSystem * S)).
Context (createQueryFromFile : string -> Prog (FsE +' E) SavedSearch).

(** X16. When the query was created but the staged file cannot be
    unlinked, the client is told 500 although the saved search exists; the
    body is the client message of the error that [unlinkSync] threw, the
    EPERM error for the staged path when the file may not be removed, the
    ENOENT error for it when the file is already gone.  The [catch] block
    then tries the removal again where the file exists and drops a second
    failure, so the files are left as the query creation left them. *)
Theorem upload_created_but_unlink_fails (file : UploadedFile)
    (created : SavedSearch) (w : FileSystem * S) :
  file_path file <> "" ->
  let o1 := run (upload_handler hE) (createQueryFromFile (file_path file)) w in
  result o1 = inr created ->
  let o := run (upload_handler hE)
             (post_hunting_queries_upload createQueryFromFile (Some file)) w in
  ((file_path file ∈ existing (world o1).1) ->
   (file_path file ∈ undeletable (world o1).1) ->
   result o = inr (MkResponse 500
                     (ErrorBody (clientMessage (EPERM (file_path file))))) /\
   world o = world o1) /\
  ((file_path file ∉ existing (world o1).1) ->
   result o = inr (MkResponse 500
                     (ErrorBody (clientMessage (ENOENT (file_path file))))) /\
   existing (world o).1 = existing (world o1).1).
Proof.
  intros Hpath o1 Hcreated o.
  destruct (run_upload_route hE createQueryFromFile file w Hpath)
    as [Hworld Hres].
  fold o1 o in Hworld, Hres. rewrite Hcreated in Hres.
  unfold without in Hworld. split.
  - intros Hin Hlocked.
    rewrite (bool_decide_eq_true_2 _ Hin),
      (bool_decide_eq_true_2 _ Hlocked) in Hres.
    rewrite (bool_decide_eq_true_2 _ Hlocked) in Hworld.
    split; [exact Hres |]. rewrite Hworld. by destruct (world o1).
  - intros Hgone. rewrite (bool_decide_eq_false_2 _ Hgone) in Hres.
    split; [exact Hres |]. rewrite Hworld.
    destruct (bool_decide (file_path file ∈ undeletable (world o1).1));
      [done |].
    cbn [fst existing]. apply difference_disjoint_L.
    by apply disjoint_singleton_r.
Qed.

(** X17. Whatever file the handler is given and whatever the query
    creation and its collaborators do, the upload handler returns a
    response: no error escapes it, and the status is 201, 400 or 500. *)
Theorem upload_always_responds (req_file : option UploadedFile)
    (w : FileSystem * S) :
  exists resp : Response SavedSearch,
    result (run (upload_handler hE)
              (post_hunting_queries_upload createQueryFromFile req_file) w)
      = inr resp /\
    (status resp = 201 \/ status resp = 400 \/ status resp = 500).
Proof.
  destruct req_file as [file |]; [| eexists; split; [reflexivity | auto]].
  destruct (decide (file_path file = "")) as [Hempty | Hpath].
  - unfold post_hunting_queries_upload. rewrite run_try_catch.
    unfold catch_outcome.
    destruct (result (run (upload_handler hE) _ w)) as [e | resp] eqn:Hbody.
    + rewrite Hempty. cbn [String.eqb negb bind run result].
      eexists. split; [reflexivity |]. auto.
    + cbn [result]. exists resp. split; [done |].
      rewrite run_bind in Hbody. unfold seq_outcome in Hbody.
      destruct (result (run (upload_handler hE)
                          (createQueryFromFile (file_path file)) w))
        as [e | created]; [done |].
      cbn [result] in Hbody. rewrite run_bind in Hbody.
      unfold seq_outcome in Hbody.
      destruct (result (run (upload_handler hE) (await _) _)); [done |].
      cbn [result run] in Hbody. injection Hbody as <-. auto.
  - destruct (run_upload_route hE createQueryFromFile file w Hpath)
      as [_ Hres].
    destruct (result (run (upload_handler hE)
                        (createQueryFromFile (file_path file)) w))
      as [e | created].
    + eexists. split; [exact Hres |]. auto.
    + destruct (bool_decide _); [destruct (bool_decide _) |];
        eexists; (split; [exact Hres |]); auto.
Qed.
End UploadEdges.

Lemma upload_created_but_unlink_fails_witness :
  let w := ({| existing := {[ "uploads/3f2a9c" ]};
               undeletable := {[ "uploads/3f2a9c" ]} |}, sample_workspace) in
  let o := run (upload_handler (with_files (workspace_handler sample_remote)))
             (post_hunting_queries_upload
                (fun path => inject_r (createQueryFromFile sample_conventions path))
                (Some sample_upload)) w in
  result o
  = inr (MkResponse 500
           (ErrorBody
              "EPERM: operation not permitted, unlink 'uploads/3f2a9c'")) /\
  length (created (world o).2) = 1%nat /\
  ("uploads/3f2a9c" ∈ existing (world o).1).
Proof.
  intros w o.
  assert (file_path sample_upload <> "") as Hpath by discriminate.
  epose proof (upload_created_but_unlink_fails
                 (with_files (workspace_handler sample_remote))
                 (fun path =>
                    inject_r (createQueryFromFile sample_conventions path))
                 sample_upload _ w Hpath) as Hedge.
  cbv zeta in Hedge. destruct Hedge as [Hlocked _].
  - vm_compute. reflexivity.
  - destruct Hlocked as [Hres Hworld].
    + vm_compute. reflexivity.
    + vm_compute. reflexivity.
    + split; [exact Hres |]. split; vm_compute; reflexivity.
Defined.

(* ===================================================================== *)
(** * Which names pass the upload filter *)
(* ===================================================================== *)

Lemma none_of_chars (p : ascii -> bool) (s : string) :
  none_of p s = true ->
  Forall (fun c => p c = false) (String.list_ascii_of_string s).
Proof.
  induction s as [| c s IH]; simpl; [constructor |].
  intros [Hc Hs]%andb_true_iff. constructor; [| by apply IH].
  by apply negb_true_iff.
Qed.

Lemma chars_append (s1 s2 : string) :
  String.list_ascii_of_string (s1 +:+ s2) =
  String.list_ascii_of_string s1 ++ String.list_ascii_of_string s2.
Proof. induction s1 as [| c s1 IH]; simpl; [done |]. by rewrite IH. Qed.

Lemma chars_length (s : string) :
  length (String.list_ascii_of_string s) = String.length s.
Proof. induction s as [| c s IH]; simpl; [done |]. by rewrite IH. Qed.

Lemma substring_all (s : string) :
  String.substring 0 (String.length s) s = s.
Proof. induction s as [| c s IH]; simpl; [done |]. by rewrite IH. Qed.

Lemma substring_skip (s1 s2 : string) (n : nat) :
  String.substring (String.length s1) n (s1 +:+ s2) = String.substring 0 n s2.
Proof. induction s1 as [| c s1 IH]; simpl; done. Qed.

(** Scanning characters that are no dot keeps [startDot] unset. *)
Lemma scan_without_dot (l : list ascii) (i : Z) (st : ExtScan) :
  Forall (fun c => is_dot c = false) l ->
  startDot st = -1 ->
  startDot (extname_scan l i st) = -1.
Proof.
  intros Hl. revert i st.
  induction Hl as [| c l Hc Hl IH]; intros i st Hst; simpl; [done |].
  unfold is_dot in Hc. rewrite Hc.
  destruct (Ascii.eqb c "/").
  - destruct (negb (matchedSlash st)); [done | by apply IH].
  - destruct (scan_end st =? -1); simpl; rewrite Hst; simpl; by apply IH.
Qed.

Lemma extname_without_dot (path : string) :
  none_of is_dot path = true -> extname path = "".
Proof.
  intros Hpath. unfold extname.
  rewrite scan_without_dot; [done | | done].
  apply Forall_rev. by apply none_of_chars.
Qed.

(** Once the end of the extension is marked, characters that are neither
    dot nor slash pass without a trace while no dot has been seen. *)
Lemma scan_extension (l rest : list ascii) (i : Z) (st : ExtScan) :
  Forall (fun c => is_dot_or_slash c = false) l ->
  startDot st = -1 -> scan_end st <> -1 ->
  extname_scan (l ++ rest) i st =
  extname_scan rest (i - Z.of_nat (length l)) st.
Proof.
  intros Hl Hdot Hend. revert i.
  induction Hl as [| c l Hc Hl IH]; intros i; simpl.
  - f_equal. lia.
  - unfold is_dot_or_slash, is_dot, is_slash in Hc.
    apply orb_false_iff in Hc as [Hc1 Hc2]. rewrite Hc1, Hc2.
    apply Z.eqb_neq in Hend. rewrite Hend. rewrite Hdot. simpl.
    rewrite IH. f_equal. lia.
Qed.

(** After the dot, characters that are no slash leave everything but
    [preDotState] alone, and [preDotState] ends as -1 or 1. *)
Lemma scan_basename (l : list ascii) (i : Z) (st : ExtScan) :
  Forall (fun c => is_slash c = false) l ->
  startDot st <> -1 -> scan_end st <> -1 ->
  l <> [] \/ preDotState st = -1 \/ preDotState st = 1 ->
  let st' := extname_scan l i st in
  startDot st' = startDot st /\ startPart st' = startPart st /\
  scan_end st' = scan_end st /\
  (preDotState st' = -1 \/ preDotState st' = 1).
Proof.
  intros Hl. revert i st.
  induction Hl as [| c l Hc Hl IH]; intros i st Hdot Hend Hpre; simpl.
  - destruct Hpre as [? | ?]; done.
  - unfold is_slash in Hc. rewrite Hc.
    pose proof Hend as Hend'. apply Z.eqb_neq in Hend'. rewrite Hend'.
    pose proof Hdot as Hdot'. apply Z.eqb_neq in Hdot'. rewrite Hdot'.
    simpl.
    destruct (Ascii.eqb c ".").
    + destruct (preDotState st =? 1) eqn:Hone; simpl.
      * apply Z.eqb_eq in Hone.
        apply (IH (i - 1) st); auto.
      * destruct (IH (i - 1)
                    (MkExtScan (startDot st) (startPart st) (scan_end st)
                               (matchedSlash st) 1)) as (? & ? & ? & ?);
          simpl; auto.
    + destruct (IH (i - 1)
                  (MkExtScan (startDot st) (startPart st) (scan_end st)
                             (matchedSlash st) (-1))) as (? & ? & ? & ?);
        simpl; auto.
Qed.

Lemma extname_base_ext (base ext : string) :
  base <> "" -> ext <> "" ->
  none_of is_slash base = true ->
  none_of is_dot_or_slash ext = true ->
  extname (base +:+ "." +:+ ext) = "." +:+ ext.
Proof.
  intros Hbase Hext Hb He. unfold extname.
  rewrite !chars_append, !length_app, !rev_app_distr. simpl.
  rewrite !chars_length.
  set (B := String.list_ascii_of_string base).
  set (X := String.list_ascii_of_string ext).
  assert (Forall (fun c => is_dot_or_slash c = false) (rev X)) as HX
    by (apply Forall_rev; by apply none_of_chars).
  assert (Forall (fun c => is_slash c = false) (rev B)) as HB
    by (apply Forall_rev; by apply none_of_chars).
  assert (rev B <> []) as HBne.
  { subst B. destruct base; [done |]. simpl. intros H.
    apply app_eq_nil in H as [_ H]. done. }
  destruct (rev X) as [| x X'] eqn:HrevX.
  { exfalso. subst X. destruct ext; [done |]. simpl in HrevX.
    apply app_eq_nil in HrevX as [_ H]. done. }
  assert (String.length ext = S (length X')) as Hlen.
  { rewrite <- chars_length. fold X. rewrite <- (length_rev X), HrevX. done. }
  inversion HX as [| ? ? Hx HX']; subst.
  unfold is_dot_or_slash, is_dot, is_slash in Hx.
  apply orb_false_iff in Hx as [Hx1 Hx2].
  rewrite <- app_assoc. simpl. rewrite Hx1, Hx2. simpl.
  rewrite scan_extension; [| done | done | simpl; lia].
  simpl.
  assert ((Z.of_nat (String.length base + S (String.length ext)) - 1 + 1
           =? -1) = false) as -> by (apply Z.eqb_neq; lia).
  simpl.
  match goal with
  | |- context [extname_scan (rev B) ?i ?st] =>
      destruct (scan_basename (rev B) i st HB) as (Hd & Hp & Hn & Hs);
        [simpl; lia | simpl; lia | by left |];
        simpl in Hd, Hp, Hn;
        destruct (extname_scan (rev B) i st) as [sd sp se ms ps]
  end.
  simpl in *. subst sd sp se.
  set (start := Z.of_nat (String.length base + S (String.length ext))
                - 1 - 1 - Z.of_nat (length X')).
  set (stop := Z.of_nat (String.length base + S (String.length ext))
               - 1 + 1).
  assert (start = Z.of_nat (String.length base)) as Hstart
    by (subst start; lia).
  assert (stop - start = Z.of_nat (S (String.length ext))) as Hstop
    by (subst start stop; lia).
  destruct (Z.eqb_spec start (-1)) as [? | _]; [lia |].
  destruct (Z.eqb_spec stop (-1)) as [? | _]; [subst stop; lia |].
  destruct (Z.eqb_spec ps 0) as [? | _]; [lia |].
  destruct (Z.eqb_spec start (stop - 1)) as [? | _]; [lia |].
  rewrite andb_false_r. cbn [orb andb].
  rewrite Hstop, Hstart, !Nat2Z.id.
  change (S (String.length ext)) with (String.length ("." +:+ ext)).
  rewrite substring_skip. apply substring_all.
Qed.

Lemma extname_bare_extension (ext : string) :
  none_of is_dot_or_slash ext = true -> extname ("." +:+ ext) = "".
Proof.
  intros He. change ("." +:+ ext) with (String "." ext).
  unfold extname. simpl. rewrite chars_length.
  set (X := String.list_ascii_of_string ext).
  assert (Forall (fun c => is_dot_or_slash c = false) (rev X)) as HX
    by (apply Forall_rev; by apply none_of_chars).
  assert (length (rev X) = String.length ext) as Hlen
    by (by rewrite length_rev, <- chars_length).
  destruct (rev X) as [| x X'] eqn:HrevX.
  { destruct ext; [done | done]. }
  inversion HX as [| ? ? Hx HX']; subst.
  unfold is_dot_or_slash, is_dot, is_slash in Hx.
  apply orb_false_iff in Hx as [Hx1 Hx2].
  simpl. rewrite Hx1, Hx2. simpl.
  rewrite scan_extension; [| done | done | simpl; lia].
  simpl.
  assert ((Z.of_nat (S (String.length ext)) - 1 + 1 =? -1) = false) as ->
    by (apply Z.eqb_neq; lia).
  simpl. by rewrite orb_true_r.
Qed.

Section FilteredNames.
Context (lc : LowerCasing).

(** X18. A file whose original name contains no dot at all has no
    extension and is rejected, whatever else the name contains. *)
Theorem fileFilter_rejects_names_without_dot (file : UploadedFile) :
  none_of is_dot (originalname file) = true ->
  fileFilter lc file =
  Reject {| err_name := "Error";
            err_message := Some "Only .kql files are allowed";
            response_data_error_message := None |}.
Proof.
  intros Hname. unfold fileFilter.
  rewrite (extname_without_dot _ Hname).
  by rewrite (toLowerCase_ascii lc "" eq_refl).
Qed.

(** X19. For an original name of the form [base.ext], with a non-empty
    [base] free of slashes and a non-empty [ext] free of dots and slashes,
    the extension is [.ext], whatever dots [base] contains, and the file is
    accepted exactly when [.ext] lowercases to [.kql].  For an [ext] made
    of ASCII characters that is exactly when [ext] is [kql] up to the case
    of its letters. *)
Theorem fileFilter_base_ext (file : UploadedFile) (base ext : string) :
  originalname file = base +:+ "." +:+ ext ->
  base <> "" -> ext <> "" ->
  none_of is_slash base = true ->
  none_of is_dot_or_slash ext = true ->
  extname (originalname file) = "." +:+ ext /\
  (fileFilter lc file = Accept <-> toLowerCase lc ("." +:+ ext) = ".kql") /\
  (is_ascii ext = true ->
   (fileFilter lc file = Accept <-> is_case_variant ext "kql" = true)).
Proof.
  intros Hname Hbase Hext Hb He.
  assert (extname (originalname file) = "." +:+ ext) as Hextname
    by (rewrite Hname; by apply extname_base_ext).
  assert (fileFilter lc file = Accept <->
          toLowerCase lc ("." +:+ ext) = ".kql") as Hiff.
  { unfold fileFilter, KQL_EXTENSION. rewrite Hextname.
    destruct (String.eqb (toLowerCase lc ("." +:+ ext)) ".kql") eqn:Heq;
      simpl.
    - apply String.eqb_eq in Heq. by split.
    - apply String.eqb_neq in Heq. split; [discriminate | done]. }
  split; [exact Hextname |]. split; [exact Hiff |].
  intros Hascii. rewrite Hiff.
  change ("." +:+ ext) with (String "." ext).
  rewrite (toLowerCase_ascii lc (String "." ext)) by (by simpl).
  change (ascii_toLowerCase (String "." ext))
    with (String "." (ascii_toLowerCase ext)).
  split.
  - intros [= Hlower]. rewrite <- Hlower. apply case_variant_of_lower.
  - intros Hvariant. f_equal. by apply toLowerCase_case_variant.
Qed.

(** X20. A name that consists of an extension only, such as [.kql], is
    treated as a hidden file without extension and is rejected. *)
Theorem fileFilter_rejects_bare_extension (file : UploadedFile)
    (ext : string) :
  originalname file = "." +:+ ext ->
  none_of is_dot_or_slash ext = true ->
  fileFilter lc file =
  Reject {| err_name := "Error";
            err_message := Some "Only .kql files are allowed";
            response_data_error_message := None |}.
Proof.
  intros Hname He. unfold fileFilter.
  rewrite Hname, (extname_bare_extension _ He).
  by rewrite (toLowerCase_ascii lc "" eq_refl).
Qed.
End FilteredNames.

Lemma fileFilter_rejects_names_without_dot_witness :
  exists e : JsError,
    fileFilter ascii_lowercasing
      {| originalname := "kql"; file_path := "uploads/5" |}
    = Reject e.
Proof.
  eexists.
  apply (fileFilter_rejects_names_without_dot ascii_lowercasing
           {| originalname := "kql"; file_path := "uploads/5" |}).
  reflexivity.
Defined.

Lemma fileFilter_base_ext_witness :
  extname "rare.process.v2.KqL" = ".KqL" /\
  fileFilter ascii_lowercasing
    {| originalname := "rare.process.v2.KqL"; file_path := "uploads/6" |}
  = Accept.
Proof.
  destruct (fileFilter_base_ext ascii_lowercasing
              {| originalname := "rare.process.v2.KqL";
                 file_path := "uploads/6" |} "rare.process.v2" "KqL"
              eq_refl ltac:(discriminate) ltac:(discriminate)
              eq_refl eq_refl)
    as (Hextname & _ & Haccept).
  split; [exact Hextname |]. apply (Haccept eq_refl). reflexivity.
Defined.

Lemma fileFilter_rejects_bare_extension_witness :
  exists e : JsError,
    fileFilter ascii_lowercasing
      {| originalname := ".kql"; file_path := "uploads/7" |}
    = Reject e.
Proof.
  eexists.
  apply (fileFilter_rejects_bare_extension ascii_lowercasing
           {| originalname := ".kql"; file_path := "uploads/7" |} "kql");
    reflexivity.
Defined.

(* ===================================================================== *)
(** * Start-up *)
(* ===================================================================== *)

(** X21. The start-up code leaves the uploads directory in place and
    nothing else changed: when the directory is missing it is created,
    when it exists [mkdirSync] is not called, so the start-up never fails
    on an existing directory; running it a second time changes nothing. *)
Theorem ensure_uploads_dir_idempotent (fs : FileSystem) :
  let o := run (upload_handler mkdir_handler) ensure_uploads_dir (fs, tt) in
  let again := run (upload_handler mkdir_handler) ensure_uploads_dir
                 (world o) in
  result o = inr tt /\
  existing (world o).1 = existing fs ∪ {[ UPLOADS_DIR ]} /\
  undeletable (world o).1 = undeletable fs /\
  trace o =
    (if bool_decide (UPLOADS_DIR ∈ existing fs)
     then [ Ev (inlE (ExistsSync UPLOADS_DIR)) ]
     else [ Ev (inlE (ExistsSync UPLOADS_DIR));
            Ev (inrE (MkdirSync UPLOADS_DIR)) ]) /\
  result again = inr tt /\
  world again = world o /\
  trace again = [ Ev (inlE (ExistsSync UPLOADS_DIR)) ].
Proof.
  intros o again. subst again o. unfold ensure_uploads_dir.
  cbn [run bind await upload_handler fs_handler fst snd after result world
       trace].
  destruct (bool_decide (UPLOADS_DIR ∈ existing fs)) eqn:Hin;
    cbn [negb run bind await upload_handler mkdir_handler fs_handler fst snd
         after result world trace existing undeletable].
  - rewrite Hin.
    cbn [negb run bind await upload_handler mkdir_handler fs_handler fst snd
         after result world trace existing undeletable].
    apply bool_decide_eq_true in Hin.
    repeat split; try done.
    symmetry. rewrite (comm_L (∪)).
    apply subseteq_union_1_L. by apply singleton_subseteq_l.
  - rewrite Hin.
    cbn [negb run bind await upload_handler mkdir_handler fs_handler fst snd
         after result world trace existing undeletable].
    assert (bool_decide (UPLOADS_DIR ∈ existing fs ∪ {[ UPLOADS_DIR ]}) = true)
      as Hnow.
    { apply bool_decide_eq_true_2, elem_of_union. right.
      by apply elem_of_singleton. }
    rewrite Hnow.
    cbn [negb run bind await upload_handler mkdir_handler fs_handler fst snd
         after result world trace existing undeletable].
    repeat split; done.
Qed.
